(** * location-bot: panorama tile planner, downloader and compositor

    A shallow embedding of [main.go].  Go's [int] is taken at its 64-bit
    width, with wrap-around written out; run-time panics are an explicit
    outcome; calls that leave the program (the rate limiter, the HTTP
    client, the image codec, the file system) go through an environment
    record and are logged in a trace. *)

From Stdlib Require Import ZArith List String Ascii Bool Lia Permutation FinFun.
From Stdlib Require Import DecimalString DecimalZ Decimal.
Import ListNotations.

Local Open Scope string_scope.
Local Open Scope list_scope.
Local Open Scope Z_scope.

Set Implicit Arguments.

(** ** Machine integers and panics *)

Module GoInt.

Definition int_bits : Z := 64.
Definition min_int : Z := - 2 ^ 63.
Definition max_int : Z := 2 ^ 63 - 1.

(** Two's complement reduction of a mathematical integer to [int]. *)
Definition wrap (z : Z) : Z := (z + 2 ^ 63) mod 2 ^ 64 - 2 ^ 63.

Definition in_int (z : Z) : Prop := min_int <= z <= max_int.

Definition add (a b : Z) : Z := wrap (a + b).
Definition sub (a b : Z) : Z := wrap (a - b).
Definition mul (a b : Z) : Z := wrap (a * b).

End GoInt.

(** Go [error] values, tagged by the call that produced them. *)
Inductive error : Type :=
| ErrCanceled                      (* context.Canceled *)
| ErrLimiter (msg : string)        (* rate.Limiter.Wait *)
| ErrNewRequest (msg : string)     (* http.NewRequest *)
| ErrTransport (msg : string)      (* http.Client.Do *)
| ErrRead (msg : string)           (* io.ReadAll *)
| ErrVips (op : string)            (* govips operations *)
| ErrIO (msg : string).            (* os.WriteFile *)

Inductive panic_value : Type :=
| RuntimeError (msg : string)
| PanicError (e : error).          (* panic(err) *)

(** Outcome of a Go computation that may stop in a run-time panic. *)
Inductive res (A : Type) : Type :=
| Ret (a : A)
| Panic (v : panic_value).
Arguments Ret {A} a.
Arguments Panic {A} v.

(** A Go pair [(v, err)]: [Ok v] when [err] is nil, [Err err] otherwise
    (every caller in main.go drops the value when [err] is not nil). *)
Inductive result (A : Type) : Type :=
| Ok (a : A)
| Err (e : error).
Arguments Ok {A} a.
Arguments Err {A} e.

Definition res_bind {A B} (r : res A) (k : A -> res B) : res B :=
  match r with
  | Ret a => k a
  | Panic v => Panic v
  end.

Declare Scope res_scope.
Delimit Scope res_scope with res.
Notation "x <- c ;; k" := (res_bind c (fun x => k))
  (at level 100, c at next level, right associativity) : res_scope.

Module GoRt.
Import GoInt.

(** [x << n] on [int] with a signed count: a negative count panics,
    a count of 64 or more shifts every bit out. *)
Definition shl (x n : Z) : res Z :=
  if n <? 0 then Panic (RuntimeError "negative shift amount")
  else if int_bits <=? n then Ret 0
  else Ret (wrap (Z.shiftl x n)).

(** [make([]T, 0, cap)]: panics when the capacity is negative. *)
Definition make0 (A : Type) (cap : Z) : res (list A) :=
  if cap <? 0 then Panic (RuntimeError "makeslice: cap out of range")
  else Ret [].

(** [for x := lo; x < hi; x++ { s = body x s }].  The fuel given by
    [for_lt] is the exact number of iterations. *)
Fixpoint for_from (S : Type) (fuel : nat) (x hi : Z)
         (body : Z -> S -> S) (s : S) : S :=
  match fuel with
  | O => s
  | Datatypes.S fuel' =>
      if x <? hi then for_from fuel' (add x 1) hi body (body x s) else s
  end.

Definition for_lt (S : Type) (hi : Z) (body : Z -> S -> S) (s : S) : S :=
  for_from (Z.to_nat hi) 0 hi body s.

End GoRt.

(** ** Data model (main.go, lines 14-30) *)

Definition tileSize : Z := 512.
Definition defaultZoom : Z := 4.
Definition trimThreshold : Z := 6.

Record dimensions := { width : Z; height : Z }.

(** The fields [x], [y] of the two tile structs carry the struct's name,
    projections being global. *)
Record tileConfig := { cfg_x : Z; cfg_y : Z; cfg_url : string }.

Record tileData := { td_x : Z; td_y : Z; td_data : list Byte.byte }.

(** ** URL construction (main.go, lines 61-66) *)

(** The [%d] verb: optional minus sign followed by decimal digits. *)
Definition fmt_d (z : Z) : string := NilZero.string_of_int (Z.to_int z).

Definition makePanoUrl (panoId : string) (zoom x y : Z) : string :=
  "https://cbk0.google.com/cbk?output=tile&panoid=" ++ panoId
  ++ "&zoom=" ++ fmt_d zoom ++ "&x=" ++ fmt_d x ++ "&y=" ++ fmt_d y.

(** ** Planner (main.go, lines 82-104) *)

Definition getDimensionsFromZoom (zoom : Z) : res dimensions :=
  (w <- GoRt.shl 1 zoom ;;
   h <- GoRt.shl 1 (GoInt.sub zoom 1) ;;
   Ret {| width := w; height := h |})%res.

Definition getTilesConfig (panoId : string) (zoom : Z) : res (list tileConfig) :=
  (dim <- getDimensionsFromZoom zoom ;;
   tiles <- GoRt.make0 tileConfig (GoInt.mul (width dim) (height dim)) ;;
   Ret (GoRt.for_lt (width dim) (fun x tiles =>
          GoRt.for_lt (height dim) (fun y tiles =>
            tiles ++ [ {| cfg_x := x; cfg_y := y; cfg_url := makePanoUrl panoId zoom x y |} ])
            tiles)
          tiles))%res.

(** ** The world outside the program *)

(** A [context.Context], as far as a blocking call can observe it:
    [WithCancel true] is a context that is cancelled before the call
    it is handed to would be let through. *)
Inductive context : Type :=
| Background
| WithCancel (canceled : bool).

Definition ctx_canceled (ctx : context) : bool :=
  match ctx with
  | Background => false
  | WithCancel b => b
  end.

Record Request := { req_method : string; req_url : string; req_ctx : context }.

(** [resp.Body] is summarised by what [io.ReadAll] yields on it. *)
Record Response :=
  { StatusCode : Z; Body : list Byte.byte; ReadErr : option error }.

(** [rate.NewLimiter(rate.Every(d), b)]. *)
Record Limiter := { lim_every_ms : Z; lim_burst : Z }.

Inductive HttpClient : Type := DefaultClient.

Record RLHTTPClient := { client : HttpClient; rl : Limiter }.

(** Calls that leave the program, in the order they are made. *)
Inductive event : Type :=
| EvStartup
| EvShutdown
| EvPrintln (line : string)
| EvWait (ctx : context)
| EvClientDo (req : Request)
| EvCompositePano
| EvWriteFile (name : string) (bytes : list Byte.byte) (perm : Z).

Definition trace := list event.

Definition pixel := Z.
Definition black : pixel := 0.

Record image := { img_w : Z; img_h : Z; img_px : Z -> Z -> pixel }.

(** What the external packages answer.  The answers of the limiter, the
    HTTP client and the file system may depend on the history. *)
Record Env :=
  { rate_Wait : Limiter -> trace -> context -> option error;
    http_NewRequest : string -> string -> option error;
    client_Do : trace -> Request -> result Response;
    vips_black_ok : Z -> Z -> bool;
    vips_decode : list Byte.byte -> option image;
    vips_insert_ok : Z -> Z -> image -> Z -> Z -> bool;
    vips_FindTrim : image -> Z -> option (Z * Z * Z * Z);
    vips_extract_ok : image -> Z -> Z -> Z -> Z -> bool;
    vips_Export : image -> option (list Byte.byte);
    os_WriteFile : trace -> string -> list Byte.byte -> option error }.

(** Computations that extend the trace and may panic. *)
Definition M (A : Type) : Type := trace -> res A * trace.

Definition ret {A} (a : A) : M A := fun h => (Ret a, h).

Definition bind {A B} (m : M A) (k : A -> M B) : M B :=
  fun h => match m h with
           | (Ret a, h1) => k a h1
           | (Panic v, h1) => (Panic v, h1)
           end.

Definition emit (e : event) : M unit := fun h => (Ret tt, h ++ [e]).
Definition history : M trace := fun h => (Ret h, h).
Definition lift {A} (r : res A) : M A := fun h => (r, h).
Definition panic {A} (e : error) : M A := fun h => (Panic (PanicError e), h).

Declare Scope M_scope.
Delimit Scope M_scope with M.
Notation "x <- c ;; k" := (bind c (fun x => k))
  (at level 100, c at next level, right associativity) : M_scope.
Notation "c ;;; k" := (bind c (fun _ => k))
  (at level 100, right associativity) : M_scope.

Definition result_bind {A B} (r : result A) (k : A -> result B) : result B :=
  match r with
  | Ok a => k a
  | Err e => Err e
  end.

Declare Scope result_scope.
Delimit Scope result_scope with result.
Notation "x <- c ;; k" := (result_bind c (fun x => k))
  (at level 100, c at next level, right associativity) : result_scope.

(** ** Rate-limited client (main.go, lines 32-59) *)

Section Program.

Variable E : Env.

Definition Wait (l : Limiter) (ctx : context) : M (option error) :=
  (h <- history ;;
   emit (EvWait ctx) ;;;
   ret (rate_Wait E l h ctx))%M.

Definition http_Do (c : HttpClient) (req : Request) : M (result Response) :=
  (h <- history ;;
   emit (EvClientDo req) ;;;
   ret (client_Do E h req))%M.

Definition Do (c : RLHTTPClient) (req : Request) : M (result Response) :=
  (let ctx := Background in
   err <- Wait (rl c) ctx ;;
   match err with
   | Some e => ret (Err e)
   | None =>
       r <- http_Do (client c) req ;;
       match r with
       | Err e => ret (Err e)
       | Ok resp => ret (Ok resp)
       end
   end)%M.

Definition NewClient (rl : Limiter) : RLHTTPClient :=
  {| client := DefaultClient; rl := rl |}.

(** [http.NewRequest] attaches the background context. *)
Definition NewRequest (method url : string) : result Request :=
  match http_NewRequest E method url with
  | Some e => Err e
  | None => Ok {| req_method := method; req_url := url; req_ctx := Background |}
  end.

Definition ReadAll (resp : Response) : result (list Byte.byte) :=
  match ReadErr resp with
  | Some e => Err e
  | None => Ok (Body resp)
  end.

(** ** Downloader (main.go, lines 68-80 and 106-128) *)

Definition fetchTile (config : tileConfig) (rlClient : RLHTTPClient)
  : M (result (list Byte.byte)) :=
  match NewRequest "GET" (cfg_url config) with
  | Err e => ret (Err e)
  | Ok req =>
      (r <- Do rlClient req ;;
       match r with
       | Err e => ret (Err e)
       | Ok resp => ret (ReadAll resp)
       end)%M
  end.

Definition progress (tag : string) (tile : tileConfig) (n : nat) : event :=
  EvPrintln (tag ++ " " ++ fmt_d (cfg_x tile) ++ " " ++ fmt_d (cfg_y tile)
             ++ " of " ++ fmt_d (Z.of_nat n)).

(** The [range] loop of [getTiles]; [n] is [len(tiles)] of the whole
    slice and [results] the slice built so far. *)
Fixpoint getTiles_loop (n : nat) (rlClient : RLHTTPClient)
         (tiles : list tileConfig) (results : list tileData)
  : M (result (list tileData)) :=
  match tiles with
  | [] => ret (Ok results)
  | tile :: rest =>
      (emit (progress "[Fetching]" tile n) ;;;
       r <- fetchTile tile rlClient ;;
       emit (progress "[Done]" tile n) ;;;
       match r with
       | Err e => ret (Err e)
       | Ok bytes =>
           let td := {| td_x := cfg_x tile; td_y := cfg_y tile; td_data := bytes |} in
           getTiles_loop n rlClient rest (results ++ [td])
       end)%M
  end.

Definition getTiles (panoId : string) (zoom : Z) (rlClient : RLHTTPClient)
  : M (result (list tileData)) :=
  (tiles <- lift (getTilesConfig panoId zoom) ;;
   getTiles_loop (List.length tiles) rlClient tiles [])%M.

(** ** Imaging primitives

    govips is not part of the repository.  Whether a call succeeds is
    left to the environment; what a successful call yields follows the
    pixel meaning of the operation: [Black] a canvas of zeros,
    [Insert] without expansion an opaque overwrite of the covered
    region, [ExtractArea] the cropped window. *)

Definition vips_Black (w h : Z) : result image :=
  if vips_black_ok E w h
  then Ok {| img_w := w; img_h := h; img_px := fun _ _ => black |}
  else Err (ErrVips "black").

Definition vips_NewImageFromBuffer (buf : list Byte.byte) : result image :=
  match vips_decode E buf with
  | Some im => Ok im
  | None => Err (ErrVips "decode")
  end.

Definition in_rect (x y w h i j : Z) : bool :=
  (x <=? i) && (i <? x + w) && (y <=? j) && (j <? y + h).

Definition vips_Insert (pano sub : image) (x y : Z) : result image :=
  if vips_insert_ok E (img_w pano) (img_h pano) sub x y
  then Ok {| img_w := img_w pano;
             img_h := img_h pano;
             img_px := fun i j =>
               if in_rect x y (img_w sub) (img_h sub) i j
               then img_px sub (i - x) (j - y)
               else img_px pano i j |}
  else Err (ErrVips "insert").

Definition vips_ExtractArea (pano : image) (l t w h : Z) : result image :=
  if vips_extract_ok E pano l t w h
  then Ok {| img_w := w; img_h := h;
             img_px := fun i j => img_px pano (i + l) (j + t) |}
  else Err (ErrVips "extract_area").

(** ** Compositor (main.go, lines 130-161) *)

(** The [range] loop of [compositePano]; [pano] is updated in place
    by [Insert]. *)
Fixpoint paste_loop (tiles : list tileData) (pano : image) : result image :=
  match tiles with
  | [] => Ok pano
  | tile :: rest =>
      (image <- vips_NewImageFromBuffer (td_data tile) ;;
       pano' <- vips_Insert pano image
                  (GoInt.mul tileSize (td_x tile))
                  (GoInt.mul tileSize (td_y tile)) ;;
       paste_loop rest pano')%result
  end.

(** Lines 131-148: the canvas with every tile pasted, before trimming. *)
Definition compositePano_canvas (tiles : list tileData) (zoom : Z)
  : res (result image) :=
  (dim <- getDimensionsFromZoom zoom ;;
   Ret (pano <- vips_Black (GoInt.mul tileSize (width dim))
                           (GoInt.mul tileSize (height dim)) ;;
        paste_loop tiles pano)%result)%res.

(** Lines 150-160: trim to content. *)
Definition trim (pano : image) : result image :=
  match vips_FindTrim E pano trimThreshold with
  | None => Err (ErrVips "find_trim")
  | Some (l, t, w, h) => vips_ExtractArea pano l t w h
  end.

Definition compositePano (tiles : list tileData) (zoom : Z)
  : res (result image) :=
  (r <- compositePano_canvas tiles zoom ;;
   Ret (pano <- r ;; trim pano)%result)%res.

(** ** Entry point (main.go, lines 163-188) *)

Definition Export (pano : image) : result (list Byte.byte) :=
  match vips_Export E pano with
  | Some bytes => Ok bytes
  | None => Err (ErrVips "export")
  end.

Definition WriteFile (name : string) (bytes : list Byte.byte) (perm : Z)
  : M (option error) :=
  (h <- history ;;
   emit (EvWriteFile name bytes perm) ;;;
   ret (os_WriteFile E h name bytes))%M.

Definition main_body : M unit :=
  (let panoId := "KGt-9AaQ7UTn_PgwRqtTOg" in
   let rl := {| lim_every_ms := 200; lim_burst := 1 |} in
   let rlClient := NewClient rl in
   r <- getTiles panoId defaultZoom rlClient ;;
   match r with
   | Err e => panic e
   | Ok tiles =>
       emit EvCompositePano ;;;
       r <- lift (compositePano tiles defaultZoom) ;;
       match r with
       | Err e => panic e
       | Ok pano =>
           match Export pano with
           | Err e => panic e
           | Ok imageBytes =>
               err <- WriteFile "pano.jpg" imageBytes 420 ;;
               ret tt
           end
       end
   end)%M.

(** [vips.Startup] first; the deferred [vips.Shutdown] runs when the
    body returns or panics. *)
Definition main : M unit :=
  fun h => let '(r, h1) := main_body (h ++ [EvStartup]) in
           (r, h1 ++ [EvShutdown]).

End Program.

(** ** The grid the planner is meant to produce *)

Definition zrange (n : Z) : list Z := map Z.of_nat (seq 0 (Z.to_nat n)).

(** Column-major then row-major: outer over columns, inner over rows. *)
Definition grid (panoId : string) (zoom w h : Z) : list tileConfig :=
  flat_map (fun x =>
    map (fun y => {| cfg_x := x; cfg_y := y; cfg_url := makePanoUrl panoId zoom x y |})
        (zrange h))
    (zrange w).

Definition coords (t : tileConfig) : Z * Z := (cfg_x t, cfg_y t).


(** ** Characters of a string *)

Fixpoint occurs (c : ascii) (s : string) : Prop :=
  match s with
  | EmptyString => False
  | String a s' => a = c \/ occurs c s'
  end.

Definition is_digit (a : ascii) : Prop :=
  In a ["0"; "1"; "2"; "3"; "4"; "5"; "6"; "7"; "8"; "9"]%char.

(** ** Reading a trace *)

(** The URLs handed to the HTTP client, in order. *)
Fixpoint requested (evs : trace) : list string :=
  match evs with
  | [] => []
  | EvClientDo req :: evs' => req_url req :: requested evs'
  | _ :: evs' => requested evs'
  end.

Definition is_fetch_event (e : event) : bool :=
  match e with
  | EvPrintln _ | EvWait _ | EvClientDo _ => true
  | _ => false
  end.

(** [fetched E c n h tiles tds h']: starting from history [h], the
    fetches of [tiles], made one after the other, all succeed; [tds]
    pairs each descriptor with its payload and [h'] is the history
    afterwards. *)
Inductive fetched (E : Env) (c : RLHTTPClient) (n : nat)
  : trace -> list tileConfig -> list tileData -> trace -> Prop :=
| fetched_nil h : fetched E c n h [] [] h
| fetched_cons h tile rest bytes h1 tds h2 :
    fetchTile E tile c (h ++ [progress "[Fetching]" tile n]) = (Ret (Ok bytes), h1) ->
    fetched E c n (h1 ++ [progress "[Done]" tile n]) rest tds h2 ->
    fetched E c n h (tile :: rest)
            ({| td_x := cfg_x tile; td_y := cfg_y tile; td_data := bytes |} :: tds) h2.

(** The limiter and client that [main] builds. *)
Definition mainPanoId : string := "KGt-9AaQ7UTn_PgwRqtTOg".
Definition mainClient : RLHTTPClient :=
  NewClient {| lim_every_ms := 200; lim_burst := 1 |}.

(** ** Reading a canvas *)

(** Whether the pasted image of tile [t] covers pixel (i, j), and the
    pixel it puts there. *)
Definition covers (E : Env) (t : tileData) (i j : Z) : bool :=
  match vips_decode E (td_data t) with
  | Some im => in_rect (tileSize * td_x t) (tileSize * td_y t) (img_w im) (img_h im) i j
  | None => false
  end.

Definition tile_pixel (E : Env) (t : tileData) (i j : Z) : pixel :=
  match vips_decode E (td_data t) with
  | Some im => img_px im (i - tileSize * td_x t) (j - tileSize * td_y t)
  | None => black
  end.

(** Whether tile [t] decodes and its paste is accepted on a canvas of
    the given size. *)
Definition pastable (E : Env) (cw ch : Z) (t : tileData) : bool :=
  match vips_decode E (td_data t) with
  | Some im => vips_insert_ok E cw ch im (GoInt.mul tileSize (td_x t))
                              (GoInt.mul tileSize (td_y t))
  | None => false
  end.

(** ** Environments used to run the program on concrete inputs *)

Module TestEnv.

Definition solid (w h : Z) (p : pixel) : image :=
  {| img_w := w; img_h := h; img_px := fun _ _ => p |}.

(** A limiter that gives up when the context it is handed is
    cancelled, and lets everything else through. *)
Definition wait_honouring_ctx (l : Limiter) (h : trace) (ctx : context)
  : option error :=
  if ctx_canceled ctx then Some ErrCanceled else None.

(** A canvas must be non-empty; a paste must fit the canvas. *)
Definition black_positive (w h : Z) : bool := (0 <? w) && (0 <? h).

Definition insert_in_bounds (cw ch : Z) (sub : image) (x y : Z) : bool :=
  (0 <=? x) && (0 <=? y) && (x + img_w sub <=? cw) && (y + img_h sub <=? ch).

Definition make (respond : trace -> Request -> result Response)
           (write : option error) : Env :=
  {| rate_Wait := wait_honouring_ctx;
     http_NewRequest := fun _ _ => None;
     client_Do := respond;
     vips_black_ok := black_positive;
     vips_decode := fun buf => Some (solid tileSize tileSize (Z.of_nat (List.length buf)));
     vips_insert_ok := insert_in_bounds;
     vips_FindTrim := fun im _ => Some (0, 0, img_w im, img_h im);
     vips_extract_ok := fun _ _ _ _ _ => true;
     vips_Export := fun _ => Some [];
     os_WriteFile := fun _ _ _ => write |}.

Definition payload : list Byte.byte := [Byte.x4a; Byte.x50; Byte.x47].

(** Every request is answered 200 with a three-byte body. *)
Definition respond_ok (h : trace) (req : Request) : result Response :=
  Ok {| StatusCode := 200; Body := payload; ReadErr := None |}.

(** Every request is answered 404 with a body. *)
Definition respond_404 (h : trace) (req : Request) : result Response :=
  Ok {| StatusCode := 404; Body := payload; ReadErr := None |}.

(** The [k]-th request (counting from 1) meets a transport error. *)
Definition respond_fail_at (k : nat) (h : trace) (req : Request)
  : result Response :=
  if Nat.eqb (S (List.length (requested h))) k
  then Err (ErrTransport "connection reset")
  else respond_ok h req.

(** An HTTP client that refuses a request whose context is cancelled. *)
Definition respond_honouring_ctx (h : trace) (req : Request)
  : result Response :=
  if ctx_canceled (req_ctx req) then Err ErrCanceled else respond_ok h req.

Definition ok : Env := make respond_ok None.
Definition not_found : Env := make respond_404 None.
Definition fail_at (k : nat) : Env := make (respond_fail_at k) None.
Definition ctx_aware : Env := make respond_honouring_ctx None.
Definition disk_full : Env := make respond_ok (Some (ErrIO "no space left on device")).

(** As [ok], with an allocator that accepts any size. *)
Definition any_canvas : Env :=
  {| rate_Wait := wait_honouring_ctx;
     http_NewRequest := fun _ _ => None;
     client_Do := respond_ok;
     vips_black_ok := fun _ _ => true;
     vips_decode := fun buf => Some (solid tileSize tileSize (Z.of_nat (List.length buf)));
     vips_insert_ok := insert_in_bounds;
     vips_FindTrim := fun im _ => Some (0, 0, img_w im, img_h im);
     vips_extract_ok := fun _ _ _ _ _ => true;
     vips_Export := fun _ => Some [];
     os_WriteFile := fun _ _ _ => None |}.

(** A tile whose column is far outside any grid. *)
Definition far_tile : list tileData :=
[ {| td_x := 2 ^ 55; td_y := 0; td_data := [Byte.x01] |} ].

Definition two_tiles : list tileData :=
  [ {| td_x := 0; td_y := 0; td_data := [Byte.x01] |};
    {| td_x := 1; td_y := 0; td_data := [Byte.x01; Byte.x02] |} ].

(** The download that [main] performs against [disk_full]. *)
Definition disk_full_download : res (result (list tileData)) * trace :=
  Eval vm_compute in
    getTiles disk_full mainPanoId defaultZoom mainClient [EvStartup].

Definition disk_full_tiles : list tileData :=
  match fst disk_full_download with
  | Ret (Ok tiles) => tiles
  | _ => []
  end.

Definition canceled_request : Request :=
  {| req_method := "GET"; req_url := "https://example.org/"; req_ctx := WithCancel true |}.

End TestEnv.

(** ** Disciplines of a trace *)

Definition is_println (e : event) : bool :=
  match e with
  | EvPrintln _ => true
  | _ => false
  end.

Definition is_write (e : event) : bool :=
  match e with
  | EvWriteFile _ _ _ => true
  | _ => false
  end.

(** The requests handed to the HTTP client, in order. *)
Fixpoint requests (evs : trace) : list Request :=
  match evs with
  | [] => []
  | EvClientDo req :: evs' => req :: requests evs'
  | _ :: evs' => requests evs'
  end.

(** Every request comes right after a limiter wait on the background
    context; [waited] tells whether the event before [evs] was one. *)
Fixpoint guarded_from (waited : bool) (evs : trace) : bool :=
  match evs with
  | [] => true
  | EvClientDo _ :: evs' => waited && guarded_from false evs'
  | EvWait Background :: evs' => guarded_from true evs'
  | _ :: evs' => guarded_from false evs'
  end.

Definition guarded (evs : trace) : bool := guarded_from false evs.

Definition prefix (A : Type) (l full : list A) : Prop :=
  exists rest, l ++ rest = full.

(** The request [fetchTile] builds for a descriptor. *)
Definition request_of (config : tileConfig) : Request :=
  {| req_method := "GET"; req_url := cfg_url config; req_ctx := Background |}.

(** The two progress lines of one descriptor. *)
Definition progress_pair (n : nat) (tile : tileConfig) : trace :=
  [progress "[Fetching]" tile n; progress "[Done]" tile n].

(** Tiles on which composition stops at the second one. *)
Definition tiles_with_stray : list tileData :=
  [ {| td_x := 0; td_y := 0; td_data := [Byte.x01] |};
    {| td_x := 5; td_y := 0; td_data := [Byte.x02] |};
    {| td_x := 1; td_y := 0; td_data := [Byte.x03] |} ].



(** * Properties *)

(** ** Integers and loops *)

Module GoIntFacts.
Import GoInt.

Lemma wrap_small z : in_int z -> wrap z = z.
Proof.
  unfold in_int, min_int, max_int, wrap. intros Hz.
  rewrite Z.mod_small; lia.
Qed.

Lemma wrap_in_int z : in_int (wrap z).
Proof.
  unfold in_int, min_int, max_int, wrap.
  pose proof (Z.mod_pos_bound (z + 2 ^ 63) (2 ^ 64)). lia.
Qed.

Lemma pow2_le_62 z : 0 <= z <= 62 -> 1 <= 2 ^ z <= 2 ^ 62.
Proof.
  intros Hz. split.
  - apply (Z.pow_le_mono_r 2 0 z); lia.
  - apply Z.pow_le_mono_r; lia.
Qed.

Lemma shl_1 z : 0 <= z <= 62 -> GoRt.shl 1 z = Ret (2 ^ z).
Proof.
  intros Hz. unfold GoRt.shl, int_bits.
  destruct (Z.ltb_spec z 0); [lia|].
  destruct (Z.leb_spec 64 z); [lia|].
  rewrite Z.shiftl_1_l, wrap_small; [reflexivity|].
  pose proof (pow2_le_62 Hz). unfold in_int, min_int, max_int. lia.
Qed.

(** The cut at 64 agrees with shifting in the integers and reducing. *)
Lemma shl_wrap x n : 0 <= n -> GoRt.shl x n = Ret (wrap (x * 2 ^ n)).
Proof.
  intros Hn. unfold GoRt.shl, int_bits.
  destruct (Z.ltb_spec n 0); [lia|].
  destruct (Z.leb_spec 64 n) as [Hbig|Hsmall].
  - f_equal. unfold wrap.
    replace (x * 2 ^ n) with (x * 2 ^ (n - 64) * 2 ^ 64).
    + rewrite Z.add_comm, Z_mod_plus_full. reflexivity.
    + rewrite <- Z.mul_assoc, <- Z.pow_add_r by lia. do 2 f_equal. lia.
  - now rewrite Z.shiftl_mul_pow2 by lia.
Qed.

Lemma shl_negative x n : n < 0 -> GoRt.shl x n = Panic (RuntimeError "negative shift amount").
Proof.
  intros Hn. unfold GoRt.shl. destruct (Z.ltb_spec n 0); [reflexivity|lia].
Qed.

(** A bounded universal statement decided by enumeration. *)
Lemma forallb_zrange (P : Z -> bool) (n : Z) :
  forallb P (zrange n) = true -> forall z, 0 <= z < n -> P z = true.
Proof.
  intros H z Hz. rewrite forallb_forall in H. apply H.
  unfold zrange. apply in_map_iff. exists (Z.to_nat z). split; [lia|].
  apply in_seq. lia.
Qed.

End GoIntFacts.

Module LoopFacts.
Import GoInt GoIntFacts.

Lemma for_from_fold (S : Type) (body : Z -> S -> S) fuel :
  forall x hi s,
    0 <= x -> x + Z.of_nat fuel = hi -> hi <= max_int ->
    GoRt.for_from fuel x hi body s =
    fold_left (fun s i => body i s) (map (fun k => x + Z.of_nat k) (seq 0 fuel)) s.
Proof.
  induction fuel as [|fuel IH]; intros x hi s Hx Hhi Hmax; [reflexivity|].
  cbn [GoRt.for_from seq map fold_left].
  destruct (Z.ltb_spec x hi); [|lia].
  unfold add. rewrite wrap_small by (unfold in_int, min_int, max_int in *; lia).
  rewrite (IH (x + 1) hi) by lia.
  rewrite Z.add_0_r. f_equal.
  rewrite <- seq_shift, map_map. apply map_ext. intros k. lia.
Qed.

Lemma for_lt_fold (S : Type) (body : Z -> S -> S) hi s :
  hi <= max_int ->
  GoRt.for_lt hi body s = fold_left (fun s i => body i s) (zrange hi) s.
Proof.
  intros Hmax. unfold GoRt.for_lt, zrange.
  destruct (Z.le_gt_cases hi 0) as [Hneg|Hpos].
  - replace (Z.to_nat hi) with 0%nat by lia. reflexivity.
  - rewrite (@for_from_fold S body (Z.to_nat hi) 0 hi) by lia.
    f_equal.
Qed.

Lemma fold_left_pointwise (A B : Type) (f g : A -> B -> A) (l : list B) :
  (forall a b, f a b = g a b) ->
  forall s, fold_left f l s = fold_left g l s.
Proof.
  intros Hfg. induction l as [|b l IH]; intros s; cbn; [reflexivity|].
  now rewrite Hfg, IH.
Qed.

Lemma fold_append_one (A B : Type) (f : B -> A) (l : list B) (s : list A) :
  fold_left (fun s i => s ++ [f i]) l s = s ++ map f l.
Proof.
  revert s. induction l as [|b l IH]; intros s; cbn.
  - now rewrite app_nil_r.
  - rewrite IH, <- app_assoc. reflexivity.
Qed.

Lemma fold_append_many (A B : Type) (g : B -> list A) (l : list B) (s : list A) :
  fold_left (fun s i => s ++ g i) l s = s ++ flat_map g l.
Proof.
  revert s. induction l as [|b l IH]; intros s; cbn.
  - now rewrite app_nil_r.
  - rewrite IH, <- app_assoc. reflexivity.
Qed.

End LoopFacts.

(** ** Planner *)

Module PlannerFacts.
Import GoInt GoIntFacts LoopFacts.


Lemma zrange_In n i : In i (zrange n) <-> 0 <= i < n.
Proof.
  unfold zrange. rewrite in_map_iff. split.
  - intros [k [<- Hk]]. apply in_seq in Hk. lia.
  - intros Hi. exists (Z.to_nat i). split; [lia|]. apply in_seq. lia.
Qed.

Lemma zrange_NoDup n : NoDup (zrange n).
Proof.
  unfold zrange. apply Finite.Injective_map_NoDup.
  - intros a b Hab. lia.
  - apply seq_NoDup.
Qed.


Lemma getDimensionsFromZoom_ok z :
  1 <= z <= 62 ->
  getDimensionsFromZoom z = Ret {| width := 2 ^ z; height := 2 ^ (z - 1) |}.
Proof.
  intros Hz. unfold getDimensionsFromZoom, sub.
  rewrite shl_1 by lia. cbn [res_bind].
  rewrite wrap_small by (unfold in_int, min_int, max_int; lia).
  rewrite shl_1 by lia. reflexivity.
Qed.

Lemma capacity_ok z :
  1 <= z <= 62 -> z <> 32 -> 0 <= mul (2 ^ z) (2 ^ (z - 1)).
Proof.
  intros Hz Hne.
  pose (P := fun z => (z =? 0) || (z =? 32) || (0 <=? mul (2 ^ z) (2 ^ (z - 1)))).
  assert (HP : P z = true).
  { apply (@forallb_zrange P 63); [vm_compute; reflexivity|lia]. }
  unfold P in HP.
  destruct (Z.eqb_spec z 0); [lia|].
  destruct (Z.eqb_spec z 32); [lia|].
  cbn [orb] in HP. now apply Z.leb_le.
Qed.

Lemma getTilesConfig_grid panoId z :
  1 <= z <= 62 -> z <> 32 ->
  getTilesConfig panoId z = Ret (grid panoId z (2 ^ z) (2 ^ (z - 1))).
Proof.
  intros Hz Hne. unfold getTilesConfig.
  rewrite getDimensionsFromZoom_ok by assumption. cbn [res_bind width height].
  unfold GoRt.make0.
  pose proof (capacity_ok Hz Hne) as Hcap.
  destruct (Z.ltb_spec (mul (2 ^ z) (2 ^ (z - 1))) 0); [lia|].
  cbn [res_bind]. f_equal.
  assert (Hw : 2 ^ z <= max_int).
  { pose proof (@pow2_le_62 z). unfold max_int. lia. }
  assert (Hh : 2 ^ (z - 1) <= max_int).
  { pose proof (@pow2_le_62 (z - 1)). unfold max_int. lia. }
  rewrite for_lt_fold by assumption.
  rewrite fold_left_pointwise
    with (g := fun s x => s ++ map (fun y =>
                 {| cfg_x := x; cfg_y := y;
                    cfg_url := makePanoUrl panoId z x y |}) (zrange (2 ^ (z - 1)))).
  - rewrite fold_append_many. reflexivity.
  - intros s x. rewrite for_lt_fold by assumption.
    apply fold_append_one.
Qed.


Section Grid.
Variables (panoId : string) (zoom w h : Z).

Let tile (x y : Z) : tileConfig :=
  {| cfg_x := x; cfg_y := y; cfg_url := makePanoUrl panoId zoom x y |}.

Lemma grid_In t :
  In t (grid panoId zoom w h) <->
  0 <= cfg_x t < w /\ 0 <= cfg_y t < h /\ t = tile (cfg_x t) (cfg_y t).
Proof.
  unfold grid. rewrite in_flat_map. split.
  - intros [x [Hx Ht]]. apply in_map_iff in Ht. destruct Ht as [y [<- Hy]].
    apply zrange_In in Hx, Hy. cbn. auto.
  - intros (Hx & Hy & Ht). exists (cfg_x t). split; [now apply zrange_In|].
    apply in_map_iff. exists (cfg_y t). split; [now symmetry|now apply zrange_In].
Qed.



Lemma grid_coords_NoDup : NoDup (map coords (grid panoId zoom w h)).
Proof.
  unfold grid.
  assert (Hgen : forall l : list Z, NoDup l ->
             NoDup (map coords (flat_map (fun x => map (tile x) (zrange h)) l))).
  { induction l as [|a l IH]; intros Hnd; [constructor|].
    inversion Hnd as [|? ? Ha Hl]; subst.
    cbn [flat_map]. rewrite map_app. apply NoDup_app.
    - rewrite map_map. cbn. apply Finite.Injective_map_NoDup.
      + intros p q Hpq. unfold coords, tile in Hpq. cbn in Hpq. congruence.
      + apply zrange_NoDup.
    - now apply IH.
    - intros c Hc1 Hc2. rewrite map_map in Hc1. cbn in Hc1.
      apply in_map_iff in Hc1. destruct Hc1 as [y1 [<- _]].
      apply in_map_iff in Hc2. destruct Hc2 as [t [Ht Hin]].
      apply in_flat_map in Hin. destruct Hin as [x2 [Hx2 Hin]].
      apply in_map_iff in Hin. destruct Hin as [y2 [<- _]].
      unfold coords, tile in Ht. cbn in Ht. inversion Ht; subst. contradiction. }
  apply Hgen, zrange_NoDup.
Qed.

End Grid.

End PlannerFacts.

Module Planner.
Import GoInt GoIntFacts PlannerFacts.

Example zoom1 :
  getTilesConfig "ABC" 1 =
  Ret [ {| cfg_x := 0; cfg_y := 0;
           cfg_url := "https://cbk0.google.com/cbk?output=tile&panoid=ABC&zoom=1&x=0&y=0" |};
        {| cfg_x := 1; cfg_y := 0;
           cfg_url := "https://cbk0.google.com/cbk?output=tile&panoid=ABC&zoom=1&x=1&y=0" |} ].
Proof. reflexivity. Qed.

Example zoom2_order :
  option_map (map coords) (match getTilesConfig "ABC" 2 with Ret l => Some l | Panic _ => None end)
  = Some [(0,0); (0,1); (1,0); (1,1); (2,0); (2,1); (3,0); (3,1)].
Proof. reflexivity. Qed.

Example zoom32_panics :
  getTilesConfig "ABC" 32 = Panic (RuntimeError "makeslice: cap out of range").
Proof. vm_compute. reflexivity. Qed.




(** C7, as stated, fails: at zoom 0 the height [1 << (0 - 1)] has a
    negative shift count and the planner panics instead of returning. *)
Lemma zoom0_panics :
  getTilesConfig "ABC" 0 = Panic (RuntimeError "negative shift amount") /\
  getTilesConfig "ABC" 0 <> Ret [].
Proof. split; vm_compute; [reflexivity|discriminate]. Qed.

(** C7 (amended): for every zoom z <= 0 the planner returns no
    descriptor list at all: it stops in the run-time panic of a shift
    with a negative count. *)
Theorem getTilesConfig_nonpositive_zoom (panoId : string) (z : Z) :
  z <= 0 ->
  getTilesConfig panoId z = Panic (RuntimeError "negative shift amount").
Proof.
  intros Hz. unfold getTilesConfig, getDimensionsFromZoom.
  destruct (Z.eq_dec z 0) as [->|Hnz].
  - reflexivity.
  - rewrite shl_negative by lia. reflexivity.
Qed.

Lemma getTilesConfig_nonpositive_zoom_witness :
  -3 <= 0 /\
  getTilesConfig "ABC" (-3) = Panic (RuntimeError "negative shift amount").
Proof.
  split; [lia|]. apply (@getTilesConfig_nonpositive_zoom "ABC" (-3)). lia.
Defined.

End Planner.

(** ** URL construction *)

Module StringFacts.
Local Open Scope string_scope.

Lemma occurs_app c s1 s2 :
  occurs c (s1 ++ s2) <-> occurs c s1 \/ occurs c s2.
Proof. induction s1 as [|a s1 IH]; cbn; [tauto|]. rewrite IH. tauto. Qed.

Lemma sapp_assoc (s1 s2 s3 : string) : (s1 ++ s2) ++ s3 = s1 ++ (s2 ++ s3).
Proof. induction s1 as [|a s1 IH]; cbn; [reflexivity|]. now rewrite IH. Qed.

Lemma sapp_inv_head (p s1 s2 : string) : p ++ s1 = p ++ s2 -> s1 = s2.
Proof. induction p as [|a p IH]; cbn; [auto|]. intros [= H]. auto. Qed.

(** Cutting at the last occurrence of a separator is unambiguous. *)
Lemma split_last c : forall r1 r2 s1 s2,
  r1 ++ String c s1 = r2 ++ String c s2 ->
  ~ occurs c s1 -> ~ occurs c s2 ->
  r1 = r2 /\ s1 = s2.
Proof.
  induction r1 as [|a r1 IH]; intros [|b r2] s1 s2 Heq H1 H2; cbn in Heq.
  - injection Heq as ->. auto.
  - injection Heq as <- ->. exfalso. apply H1, occurs_app. right. cbn. auto.
  - injection Heq as -> <-. exfalso. apply H2, occurs_app. right. cbn. auto.
  - injection Heq as -> Heq. destruct (IH _ _ _ Heq H1 H2) as [-> ->]. auto.
Qed.

End StringFacts.

Module UrlFacts.
Import StringFacts.
Local Open Scope string_scope.

Lemma uint_digits (d : uint) c :
  occurs c (NilEmpty.string_of_uint d) -> is_digit c.
Proof.
  unfold is_digit.
  induction d; cbn [NilEmpty.string_of_uint occurs];
    intros H; try contradiction;
    (destruct H as [<-|H]; [cbn; tauto|auto]).
Qed.

Lemma fmt_d_chars z c : occurs c (fmt_d z) -> c = "-"%char \/ is_digit c.
Proof.
  unfold fmt_d, NilZero.string_of_int, NilZero.string_of_uint.
  destruct (Z.to_int z) as [d|d].
  - destruct d; intros H; right;
      solve [ cbn in H; destruct H as [<-|[]]; unfold is_digit; cbn; tauto
            | eapply uint_digits; exact H ].
  - cbn [occurs]. intros [<-|H]; [auto|right].
    destruct d;
      solve [ cbn in H; destruct H as [<-|[]]; unfold is_digit; cbn; tauto
            | eapply uint_digits; exact H ].
Qed.

Lemma fmt_d_no_eq z : ~ occurs "="%char (fmt_d z).
Proof.
  intros H. apply fmt_d_chars in H. unfold is_digit in H. cbn in H.
  intuition discriminate.
Qed.

Lemma fmt_d_inj a b : fmt_d a = fmt_d b -> a = b.
Proof.
  unfold fmt_d. intros H.
  assert (Hnn : forall z, Z.to_int z <> Pos Nil /\ Z.to_int z <> Neg Nil).
  { intros [|p|p]; cbn; split; try discriminate;
      intros [= Hp]; now apply DecimalPos.Unsigned.to_uint_nonnil in Hp. }
  apply DecimalZ.to_int_inj.
  assert (Some (Z.to_int a) = Some (Z.to_int b)) as [= ->]; [|reflexivity].
  rewrite <- (@NilZero.isi (Z.to_int a)) by apply Hnn.
  rewrite <- (@NilZero.isi (Z.to_int b)) by apply Hnn.
  now rewrite H.
Qed.

Example fmt_d_examples :
  fmt_d 0 = "0" /\ fmt_d 15 = "15" /\ fmt_d (-7) = "-7" /\
  fmt_d (2 ^ 63 - 1) = "9223372036854775807".
Proof. repeat split. Qed.

(** Right-nest every append and push literal prefixes inside. *)
Ltac flatten_app :=
  rewrite ?sapp_assoc; cbn [append].
Tactic Notation "flatten_app" "in" hyp(H) :=
  rewrite ?sapp_assoc in H; cbn [append] in H.

Lemma makePanoUrl_inj p z x y p' z' x' y' :
  makePanoUrl p z x y = makePanoUrl p' z' x' y' ->
  p = p' /\ z = z' /\ x = x' /\ y = y'.
Proof.
  unfold makePanoUrl. intros H.
  apply sapp_inv_head in H.
  (* cut off [y] at the last "=" *)
  assert (Hy : (p ++ "&zoom=" ++ fmt_d z ++ "&x=" ++ fmt_d x ++ "&y") ++ String "=" (fmt_d y)
             = (p' ++ "&zoom=" ++ fmt_d z' ++ "&x=" ++ fmt_d x' ++ "&y") ++ String "=" (fmt_d y')).
  { flatten_app. flatten_app in H. exact H. }
  apply split_last in Hy; try apply fmt_d_no_eq.
  destruct Hy as [Hx Ey]. apply fmt_d_inj in Ey.
  (* cut off [x] *)
  assert (Hx' : (p ++ "&zoom=" ++ fmt_d z ++ "&x") ++ String "=" (fmt_d x ++ "&y")
              = (p' ++ "&zoom=" ++ fmt_d z' ++ "&x") ++ String "=" (fmt_d x' ++ "&y")).
  { flatten_app. flatten_app in Hx. exact Hx. }
  assert (Hsuf : forall v, ~ occurs "="%char (fmt_d v ++ "&y")).
  { intros v Hv. apply occurs_app in Hv. destruct Hv as [Hv|Hv].
    - now apply fmt_d_no_eq in Hv.
    - cbn in Hv. intuition discriminate. }
  apply split_last in Hx'; try apply Hsuf.
  destruct Hx' as [Hz Ex].
  assert (Ex' : fmt_d x = fmt_d x').
  { eapply (@split_last "&"%char (fmt_d x) (fmt_d x') "y" "y").
    - exact Ex.
    - cbn; intuition discriminate.
    - cbn; intuition discriminate. }
  apply fmt_d_inj in Ex'.
  (* cut off [zoom] *)
  assert (Hz' : (p ++ "&zoom") ++ String "=" (fmt_d z ++ "&x")
              = (p' ++ "&zoom") ++ String "=" (fmt_d z' ++ "&x")).
  { flatten_app. flatten_app in Hz. exact Hz. }
  assert (Hsuf' : forall v, ~ occurs "="%char (fmt_d v ++ "&x")).
  { intros v Hv. apply occurs_app in Hv. destruct Hv as [Hv|Hv].
    - now apply fmt_d_no_eq in Hv.
    - cbn in Hv. intuition discriminate. }
  apply split_last in Hz'; try apply Hsuf'.
  destruct Hz' as [Hp Ez].
  assert (Ez' : fmt_d z = fmt_d z').
  { eapply (@split_last "&"%char (fmt_d z) (fmt_d z') "x" "x").
    - exact Ez.
    - cbn; intuition discriminate.
    - cbn; intuition discriminate. }
  apply fmt_d_inj in Ez'.
  assert (Ep : p = p').
  { eapply (@split_last "&"%char p p' "zoom" "zoom").
    - exact Hp.
    - cbn; intuition discriminate.
    - cbn; intuition discriminate. }
  auto.
Qed.

End UrlFacts.

Module Url.
Import UrlFacts.
Local Open Scope string_scope.

Example end_to_end_url :
  makePanoUrl "ABC" 2 3 1 = "https://cbk0.google.com/cbk?output=tile&panoid=ABC&zoom=2&x=3&y=1".
Proof. reflexivity. Qed.

(** C4: [makePanoUrl] is a function of (panoramaId, zoom, column, row)
    whose value is the template
    https://<host>/<endpoint>?output=tile&panoid=..&zoom=..&x=..&y=..
    with host cbk0.google.com and endpoint cbk, the numbers in
    decimal; two inputs that differ in some field give different URLs. *)
Theorem makePanoUrl_template_injective
        (panoId : string) (zoom x y : Z) (panoId' : string) (zoom' x' y' : Z) :
  makePanoUrl panoId zoom x y =
    "https://" ++ "cbk0.google.com" ++ "/" ++ "cbk"
    ++ "?output=tile" ++ "&panoid=" ++ panoId ++ "&zoom=" ++ fmt_d zoom
    ++ "&x=" ++ fmt_d x ++ "&y=" ++ fmt_d y
  /\ ((panoId, zoom, x, y) = (panoId', zoom', x', y') ->
      makePanoUrl panoId zoom x y = makePanoUrl panoId' zoom' x' y')
  /\ (panoId <> panoId' \/ zoom <> zoom' \/ x <> x' \/ y <> y' ->
      makePanoUrl panoId zoom x y <> makePanoUrl panoId' zoom' x' y').
Proof.
  split; [reflexivity|]. split.
  - intros [= -> -> -> ->]. reflexivity.
  - intros Hdiff Heq. apply makePanoUrl_inj in Heq.
    destruct Heq as (Hp & Hz & Hx & Hy). tauto.
Qed.

Lemma makePanoUrl_template_injective_witness :
  makePanoUrl "ABC" 2 3 1 = "https://cbk0.google.com/cbk?output=tile&panoid=ABC&zoom=2&x=3&y=1"
  /\ makePanoUrl "ABC" 2 3 1 <> makePanoUrl "ABC" 2 1 3.
Proof.
  destruct (@makePanoUrl_template_injective "ABC" 2 3 1 "ABC" 2 1 3)
    as (Ht & _ & Hne).
  split; [exact Ht|]. apply Hne. right. right. left. lia.
Defined.

End Url.

(** ** Rate-limited client and downloader *)

Module FetchFacts.

Section WithEnv.
Variable E : Env.

(** [Do] spelled out on the answers of the environment. *)
Lemma Do_cases (c : RLHTTPClient) (req : Request) (h : trace) :
  Do E c req h =
  match rate_Wait E (rl c) h Background with
  | Some e => (Ret (Err e), h ++ [EvWait Background])
  | None =>
      (Ret (client_Do E (h ++ [EvWait Background]) req),
       (h ++ [EvWait Background]) ++ [EvClientDo req])
  end.
Proof.
  unfold Do, Wait, http_Do, bind, emit, history, ret.
  destruct (rate_Wait E (rl c) h Background); [reflexivity|].
  destruct (client_Do E (h ++ [EvWait Background]) req); reflexivity.
Qed.

Lemma fetchTile_cases (config : tileConfig) (c : RLHTTPClient) (h : trace) :
  fetchTile E config c h =
  match http_NewRequest E "GET" (cfg_url config) with
  | Some e => (Ret (Err e), h)
  | None =>
      let req := {| req_method := "GET"; req_url := cfg_url config;
                    req_ctx := Background |} in
      match rate_Wait E (rl c) h Background with
      | Some e => (Ret (Err e), h ++ [EvWait Background])
      | None =>
          (Ret (match client_Do E (h ++ [EvWait Background]) req with
                | Err e => Err e
                | Ok resp => ReadAll resp
                end),
           (h ++ [EvWait Background]) ++ [EvClientDo req])
      end
  end.
Proof.
  unfold fetchTile, NewRequest.
  destruct (http_NewRequest E "GET" (cfg_url config)); [reflexivity|].
  unfold bind. rewrite Do_cases.
  destruct (rate_Wait E (rl c) h Background); [reflexivity|].
  destruct (client_Do E (h ++ [EvWait Background]) _); reflexivity.
Qed.

(** A fetch never panics; it only adds limiter and client events,
    with at most one request, for the descriptor's own URL; a
    successful fetch adds exactly that request. *)
Lemma fetchTile_trace (config : tileConfig) (c : RLHTTPClient) (h : trace) :
  exists r evs,
    fetchTile E config c h = (Ret r, h ++ evs) /\
    forallb is_fetch_event evs = true /\
    (requested evs = [] \/ requested evs = [cfg_url config]) /\
    (forall bytes, r = Ok bytes -> requested evs = [cfg_url config]).
Proof.
  rewrite fetchTile_cases.
  destruct (http_NewRequest E "GET" (cfg_url config)) as [e|].
  { exists (Err e), []. rewrite app_nil_r. cbn. intuition discriminate. }
  cbv zeta.
  destruct (rate_Wait E (rl c) h Background) as [e|].
  { exists (Err e), [EvWait Background]. cbn. intuition discriminate. }
  eexists. exists [EvWait Background; EvClientDo
                     {| req_method := "GET"; req_url := cfg_url config;
                        req_ctx := Background |}].
  split; [rewrite <- app_assoc; reflexivity|]. cbn. auto.
Qed.

Lemma requested_app (a b : trace) : requested (a ++ b) = requested a ++ requested b.
Proof.
  induction a as [|e a IH]; [reflexivity|].
  destruct e; cbn; rewrite ?IH; reflexivity.
Qed.

Lemma loop_step n c tile rest results h :
  getTiles_loop E n c (tile :: rest) results h =
  match fetchTile E tile c (h ++ [progress "[Fetching]" tile n]) with
  | (Ret (Ok bytes), h1) =>
      getTiles_loop E n c rest
        (results ++ [ {| td_x := cfg_x tile; td_y := cfg_y tile; td_data := bytes |} ])
        (h1 ++ [progress "[Done]" tile n])
  | (Ret (Err e), h1) => (Ret (Err e), h1 ++ [progress "[Done]" tile n])
  | (Panic v, h1) => (Panic v, h1)
  end.
Proof.
  cbn [getTiles_loop]. unfold bind at 1 2. unfold emit at 1.
  destruct (fetchTile E tile c (h ++ [progress "[Fetching]" tile n])) as [[r|v] h1];
    [|reflexivity].
  unfold bind, emit. destruct r; reflexivity.
Qed.

Lemma loop_success n c tiles : forall h tds h' results,
  fetched E c n h tiles tds h' ->
  getTiles_loop E n c tiles results h = (Ret (Ok (results ++ tds)), h').
Proof.
  induction tiles as [|tile rest IH]; intros h tds h' results Hf;
    inversion Hf as [|? ? ? bytes h1 tds' ? Hfetch Hrest]; subst.
  - cbn. now rewrite app_nil_r.
  - rewrite loop_step, Hfetch. rewrite (IH _ _ _ _ Hrest).
    now rewrite <- app_assoc.
Qed.

Lemma loop_success_inv n c tiles : forall h out h' results,
  getTiles_loop E n c tiles results h = (Ret (Ok out), h') ->
  exists tds, out = results ++ tds /\ fetched E c n h tiles tds h'.
Proof.
  induction tiles as [|tile rest IH]; intros h out h' results Hrun.
  - cbn in Hrun. injection Hrun as <- <-. exists []. rewrite app_nil_r.
    split; [reflexivity|constructor].
  - rewrite loop_step in Hrun.
    destruct (fetchTile E tile c (h ++ [progress "[Fetching]" tile n]))
      as [[[bytes|e]|v] h1] eqn:Hfetch; try discriminate.
    apply IH in Hrun. destruct Hrun as [tds [-> Hrest]].
    eexists. split; [now rewrite <- app_assoc|].
    econstructor; eassumption.
Qed.

Lemma loop_failure n c pre : forall h tds h1 tile post e h2 results,
  fetched E c n h pre tds h1 ->
  fetchTile E tile c (h1 ++ [progress "[Fetching]" tile n]) = (Ret (Err e), h2) ->
  getTiles_loop E n c (pre ++ tile :: post) results h =
  (Ret (Err e), h2 ++ [progress "[Done]" tile n]).
Proof.
  induction pre as [|t pre IH]; intros h tds h1 tile post e h2 results Hf Hfail;
    inversion Hf as [|? ? ? bytes h1' tds' ? Hfetch Hrest]; subst.
  - rewrite app_nil_l. now rewrite loop_step, Hfail.
  - rewrite <- app_comm_cons. rewrite loop_step, Hfetch. eapply IH; eassumption.
Qed.

(** What a run of successful fetches leaves in the trace. *)
Lemma fetched_trace n c tiles : forall h tds h',
  fetched E c n h tiles tds h' ->
  map (fun d => (td_x d, td_y d)) tds = map coords tiles /\
  exists evs, h' = h ++ evs /\
              forallb is_fetch_event evs = true /\
              requested evs = map cfg_url tiles.
Proof.
  induction tiles as [|tile rest IH]; intros h tds h' Hf;
    inversion Hf as [|? ? ? bytes h1 tds' ? Hfetch Hrest]; subst.
  - split; [reflexivity|]. exists []. now rewrite app_nil_r.
  - destruct (IH _ _ _ Hrest) as [Hc [evs [-> [Hev Hreq]]]].
    destruct (fetchTile_trace tile c (h ++ [progress "[Fetching]" tile n]))
      as (r & evs1 & Hrun & Hev1 & _ & Hreq1).
    rewrite Hfetch in Hrun. injection Hrun as <- ->.
    split; [cbn; now rewrite Hc|].
    exists ([progress "[Fetching]" tile n] ++ evs1
            ++ [progress "[Done]" tile n] ++ evs).
    split; [now rewrite <- !app_assoc|].
    split.
    + rewrite !forallb_app, Hev1, Hev. reflexivity.
    + rewrite !requested_app, (Hreq1 bytes eq_refl), Hreq. reflexivity.
Qed.

End WithEnv.

End FetchFacts.

Module Fetcher.
Import FetchFacts TestEnv.

(** C6, as stated, fails: [Do] waits on a fresh background context and
    never looks at the context of the request.  With a limiter that
    would refuse a cancelled context and a request whose context is
    cancelled, the wait is still admitted and the request is handed to
    the HTTP client; with a client that answers, [Do] succeeds. *)
Lemma Do_ignores_request_context :
  ctx_canceled (req_ctx canceled_request) = true /\
  rate_Wait ok (rl mainClient) [] (req_ctx canceled_request) = Some ErrCanceled /\
  Do ok mainClient canceled_request [] =
    (Ret (Ok {| StatusCode := 200; Body := payload; ReadErr := None |}),
     [EvWait Background; EvClientDo canceled_request]) /\
  snd (Do ctx_aware mainClient canceled_request []) =
    [EvWait Background; EvClientDo canceled_request].
Proof. repeat split. Qed.

(** C6 (amended): before issuing a request [Do] blocks in the limiter's
    wait, on a background context whatever the context of the request:
    the request's context does not change the wait or its outcome.  If
    the wait fails, [Do] returns that error and the request is not
    issued; otherwise the request is issued exactly once, after the
    wait, and [Do] returns what the HTTP client returns. *)
Theorem Do_waits_on_background (E : Env) (c : RLHTTPClient) (req : Request) (h : trace) :
  (exists evs, snd (Do E c req h) = h ++ EvWait Background :: evs /\
               ~ In (EvWait (req_ctx req)) evs) /\
  (forall e, rate_Wait E (rl c) h Background = Some e ->
             Do E c req h = (Ret (Err e), h ++ [EvWait Background])) /\
  (rate_Wait E (rl c) h Background = None ->
   Do E c req h = (Ret (client_Do E (h ++ [EvWait Background]) req),
                   h ++ [EvWait Background; EvClientDo req])) /\
  (forall ctx',
      let req' := {| req_method := req_method req; req_url := req_url req;
                     req_ctx := ctx' |} in
      List.length (snd (Do E c req' h)) = List.length (snd (Do E c req h)) /\
      requested (snd (Do E c req' h)) = requested (snd (Do E c req h))).
Proof.
  rewrite Do_cases.
  destruct (rate_Wait E (rl c) h Background) as [e|] eqn:Hw.
  - split; [|split; [|split]].
    + exists []. cbn. auto.
    + intros e' [= <-]. reflexivity.
    + discriminate.
    + intros ctx' req'. rewrite Do_cases, Hw. cbn. auto.
  - split; [|split; [|split]].
    + exists [EvClientDo req]. cbn [snd]. rewrite <- app_assoc. split; [reflexivity|].
      cbn. intros [H|[]]. discriminate.
    + discriminate.
    + intros _. now rewrite <- app_assoc.
    + intros ctx' req'. rewrite Do_cases, Hw. cbn [snd fst].
      rewrite !length_app, !requested_app. cbn.
      split; reflexivity.
Qed.

Lemma Do_waits_on_background_witness :
  Do ctx_aware mainClient canceled_request [] =
    (Ret (Err ErrCanceled), [EvWait Background; EvClientDo canceled_request]).
Proof.
  destruct (@Do_waits_on_background ctx_aware mainClient canceled_request [])
    as (_ & _ & Hadmit & _).
  apply Hadmit. reflexivity.
Defined.

(** C9: when the exchange completes without a transport error (the
    request is built, the limiter admits it, the client returns a
    response and the body is read to its end), [fetchTile] returns the
    whole body, whatever the status code of the response: there is no
    status check, a non-2xx response yields its body as tile data. *)
Theorem fetchTile_body_any_status
        (E : Env) (config : tileConfig) (c : RLHTTPClient) (h : trace)
        (status : Z) (body : list Byte.byte) :
  let req := {| req_method := "GET"; req_url := cfg_url config;
                req_ctx := Background |} in
  http_NewRequest E "GET" (cfg_url config) = None ->
  rate_Wait E (rl c) h Background = None ->
  client_Do E (h ++ [EvWait Background]) req =
    Ok {| StatusCode := status; Body := body; ReadErr := None |} ->
  fetchTile E config c h =
    (Ret (Ok body), h ++ [EvWait Background; EvClientDo req]).
Proof.
  intros req Hnew Hwait Hdo.
  rewrite fetchTile_cases, Hnew. cbv zeta. rewrite Hwait.
  fold req. rewrite Hdo. cbn. now rewrite <- app_assoc.
Qed.

Lemma fetchTile_body_any_status_witness :
  fetchTile not_found
    {| cfg_x := 0; cfg_y := 0; cfg_url := makePanoUrl "ABC" 1 0 0 |} mainClient [] =
  (Ret (Ok payload),
   [EvWait Background;
    EvClientDo {| req_method := "GET"; req_url := makePanoUrl "ABC" 1 0 0;
                  req_ctx := Background |}]).
Proof.
  apply (@fetchTile_body_any_status not_found
           {| cfg_x := 0; cfg_y := 0; cfg_url := makePanoUrl "ABC" 1 0 0 |}
           mainClient [] 404 payload); reflexivity.
Defined.

End Fetcher.

Module DownloadFacts.
Import FetchFacts.

Section WithEnv.
Variable E : Env.

Lemma loop_events n c tiles : forall results h r h',
  getTiles_loop E n c tiles results h = (r, h') ->
  exists evs, h' = h ++ evs /\ forallb is_fetch_event evs = true.
Proof.
  induction tiles as [|tile rest IH]; intros results h r h' Hrun.
  - cbn in Hrun. injection Hrun as <- <-. exists []. now rewrite app_nil_r.
  - rewrite loop_step in Hrun.
    destruct (fetchTile_trace E tile c (h ++ [progress "[Fetching]" tile n]))
      as (r1 & evs1 & Hfetch & Hev1 & _).
    rewrite Hfetch in Hrun. destruct r1 as [bytes|e].
    + apply IH in Hrun. destruct Hrun as [evs [-> Hev]].
      exists ([progress "[Fetching]" tile n] ++ evs1
              ++ [progress "[Done]" tile n] ++ evs).
      split; [now rewrite <- !app_assoc|].
      rewrite !forallb_app, Hev1, Hev. reflexivity.
    + injection Hrun as <- <-.
      exists ([progress "[Fetching]" tile n] ++ evs1 ++ [progress "[Done]" tile n]).
      split; [now rewrite <- !app_assoc|].
      rewrite !forallb_app, Hev1. reflexivity.
Qed.

Lemma getTiles_events panoId zoom c h r h' :
  getTiles E panoId zoom c h = (r, h') ->
  exists evs, h' = h ++ evs /\ forallb is_fetch_event evs = true.
Proof.
  unfold getTiles, bind, lift.
  destruct (getTilesConfig panoId zoom) as [tiles|v].
  - apply loop_events.
  - intros [= <- <-]. exists []. now rewrite app_nil_r.
Qed.

Lemma fetch_events_no_composite evs :
  forallb is_fetch_event evs = true -> ~ In EvCompositePano evs.
Proof.
  intros H Hin. rewrite forallb_forall in H. apply H in Hin. discriminate.
Qed.

Lemma main_after_failed_download h e h' :
  getTiles E mainPanoId defaultZoom mainClient (h ++ [EvStartup]) = (Ret (Err e), h') ->
  main E h = (Panic (PanicError e), h' ++ [EvShutdown]).
Proof.
  intros Hrun. unfold main, main_body, bind.
  change "KGt-9AaQ7UTn_PgwRqtTOg" with mainPanoId.
  change (NewClient {| lim_every_ms := 200; lim_burst := 1 |}) with mainClient.
  rewrite Hrun. reflexivity.
Qed.

End WithEnv.

End DownloadFacts.

Module Downloader.
Import FetchFacts DownloadFacts TestEnv.

(** C3: [getTiles] fetches the planner's descriptors in order, one at a
    time.  It succeeds exactly when every fetch, made in that order,
    succeeds, and then returns one tile per descriptor, in the same
    order, with the descriptor's (column, row) and the fetched bytes,
    the requests issued being those of the descriptors in planner
    order.  If the k-th fetch fails after k-1 successes, [getTiles]
    returns that error and no tiles, and stops right after that fetch:
    nothing of the later descriptors is requested.  In [main] such a
    failure is raised as a panic and [compositePano] is not entered. *)
Theorem getTiles_spec (E : Env) (panoId : string) (zoom : Z)
        (c : RLHTTPClient) (h : trace) (cfgs : list tileConfig) :
  getTilesConfig panoId zoom = Ret cfgs ->
  let n := List.length cfgs in
  (forall tds h',
      getTiles E panoId zoom c h = (Ret (Ok tds), h') <-> fetched E c n h cfgs tds h') /\
  (forall tds h',
      getTiles E panoId zoom c h = (Ret (Ok tds), h') ->
      List.length tds = List.length cfgs /\
      map (fun d => (td_x d, td_y d)) tds = map coords cfgs /\
      exists evs, h' = h ++ evs /\ requested evs = map cfg_url cfgs) /\
  (forall pre tile post tds h1 e h2,
      cfgs = pre ++ tile :: post ->
      fetched E c n h pre tds h1 ->
      fetchTile E tile c (h1 ++ [progress "[Fetching]" tile n]) = (Ret (Err e), h2) ->
      getTiles E panoId zoom c h = (Ret (Err e), h2 ++ [progress "[Done]" tile n]) /\
      exists evs, h2 ++ [progress "[Done]" tile n] = h ++ evs /\
                  (requested evs = map cfg_url pre \/
                   requested evs = map cfg_url (pre ++ [tile]))) /\
  (forall h0 e h',
      getTiles E mainPanoId defaultZoom mainClient (h0 ++ [EvStartup]) = (Ret (Err e), h') ->
      main E h0 = (Panic (PanicError e), h' ++ [EvShutdown]) /\
      exists evs, h' ++ [EvShutdown] = h0 ++ evs /\ ~ In EvCompositePano evs).
Proof.
  intros Hplan n.
  assert (Hrun : getTiles E panoId zoom c h = getTiles_loop E n c cfgs [] h).
  { unfold getTiles, bind, lift. now rewrite Hplan. }
  split; [|split; [|split]].
  - intros tds h'. rewrite Hrun. split.
    + intros Hok. apply loop_success_inv in Hok.
      destruct Hok as [tds' [-> Hf]]. exact Hf.
    + intros Hf. now rewrite (loop_success [] Hf).
  - intros tds h' Hok. rewrite Hrun in Hok. apply loop_success_inv in Hok.
    destruct Hok as [tds' [-> Hf]]. rewrite app_nil_l.
    destruct (fetched_trace Hf) as [Hc [evs [-> [_ Hreq]]]].
    split; [|split; [exact Hc|eauto]].
    apply (f_equal (@List.length _)) in Hc. now rewrite !length_map in Hc.
  - intros pre tile post tds h1 e h2 -> Hf Hfail.
    split; [rewrite Hrun; eapply loop_failure; eassumption|].
    destruct (fetched_trace Hf) as [_ [evs [-> [_ Hreq]]]].
    destruct (fetchTile_trace E tile c ((h ++ evs) ++ [progress "[Fetching]" tile n]))
      as (r & evs1 & Hrun1 & _ & Hreq1 & _).
    rewrite Hfail in Hrun1. injection Hrun1 as _ ->.
    exists (evs ++ [progress "[Fetching]" tile n] ++ evs1 ++ [progress "[Done]" tile n]).
    split; [now rewrite <- !app_assoc|].
    rewrite !requested_app, Hreq. cbn [requested progress]. rewrite app_nil_r.
    destruct Hreq1 as [->| ->]; [left; now rewrite app_nil_r|right].
    now rewrite map_app.
  - intros h0 e h' Hfail.
    split; [now apply main_after_failed_download|].
    destruct (getTiles_events _ _ _ _ _ Hfail) as [evs [-> Hev]].
    exists ([EvStartup] ++ evs ++ [EvShutdown]).
    split; [now rewrite <- !app_assoc|].
    intros Hin. apply in_app_or in Hin. destruct Hin as [[H|[]]|Hin]; [discriminate|].
    apply in_app_or in Hin. destruct Hin as [Hin|[H|[]]]; [|discriminate].
    now apply fetch_events_no_composite in Hin.
Qed.

Lemma getTiles_spec_witness :
  getTilesConfig "ABC" 1 =
    Ret [ {| cfg_x := 0; cfg_y := 0; cfg_url := makePanoUrl "ABC" 1 0 0 |};
          {| cfg_x := 1; cfg_y := 0; cfg_url := makePanoUrl "ABC" 1 1 0 |} ] /\
  exists h',
    getTiles (fail_at 2) "ABC" 1 mainClient [] =
      (Ret (Err (ErrTransport "connection reset")), h') /\
    requested h' = [makePanoUrl "ABC" 1 0 0; makePanoUrl "ABC" 1 1 0].
Proof.
  split; [reflexivity|].
  destruct (@getTiles_spec (fail_at 2) "ABC" 1 mainClient [] _ eq_refl)
    as (_ & _ & Hfail & _).
  edestruct (Hfail [ {| cfg_x := 0; cfg_y := 0; cfg_url := makePanoUrl "ABC" 1 0 0 |} ]
                   {| cfg_x := 1; cfg_y := 0; cfg_url := makePanoUrl "ABC" 1 1 0 |}
                   (@nil tileConfig)) as [Hrun _].
  - reflexivity.
  - econstructor; [reflexivity|constructor].
  - reflexivity.
  - eexists. split; [exact Hrun|reflexivity].
Defined.

End Downloader.

(** ** Compositor *)

Module CompositorFacts.
Import GoInt GoIntFacts PlannerFacts.

Lemma mul_small a b : in_int (a * b) -> mul a b = a * b.
Proof. apply wrap_small. Qed.

Lemma find_app (A : Type) (f : A -> bool) (l1 l2 : list A) :
  find f (l1 ++ l2) = match find f l1 with
                      | Some a => Some a
                      | None => find f l2
                      end.
Proof.
  induction l1 as [|a l1 IH]; [reflexivity|].
  cbn. destruct (f a); [reflexivity|exact IH].
Qed.

(** The first hit of a search does not depend on the order of the
    list, up to [g], when all hits agree on [g]. *)
Lemma find_permutation (A B : Type) (f : A -> bool) (g : A -> B) (l l' : list A) :
  Permutation l l' ->
  (forall a b, In a l -> In b l -> f a = true -> f b = true -> g a = g b) ->
  option_map g (find f l) = option_map g (find f l').
Proof.
  intros Hp Hagree.
  destruct (find f l) as [a|] eqn:Ha; destruct (find f l') as [b|] eqn:Hb; cbn.
  - apply find_some in Ha, Hb. destruct Ha as [Ha1 Ha2], Hb as [Hb1 Hb2].
    f_equal. apply Hagree; auto.
    eapply Permutation_in; [symmetry; eassumption|assumption].
  - apply find_some in Ha. destruct Ha as [Ha1 Ha2].
    eapply find_none in Hb; [|eapply Permutation_in; eassumption]. congruence.
  - apply find_some in Hb. destruct Hb as [Hb1 Hb2].
    eapply find_none in Ha;
      [|eapply Permutation_in; [symmetry; eassumption|eassumption]]. congruence.
  - reflexivity.
Qed.

Section WithEnv.
Variable E : Env.

Lemma paste_step tile rest pano :
  paste_loop E (tile :: rest) pano =
  match vips_decode E (td_data tile) with
  | None => Err (ErrVips "decode")
  | Some im =>
      if vips_insert_ok E (img_w pano) (img_h pano) im
           (mul tileSize (td_x tile)) (mul tileSize (td_y tile))
      then paste_loop E rest
             {| img_w := img_w pano; img_h := img_h pano;
                img_px := fun i j =>
                  if in_rect (mul tileSize (td_x tile)) (mul tileSize (td_y tile))
                             (img_w im) (img_h im) i j
                  then img_px im (i - mul tileSize (td_x tile))
                                 (j - mul tileSize (td_y tile))
                  else img_px pano i j |}
      else Err (ErrVips "insert")
  end.
Proof.
  cbn [paste_loop]. unfold vips_NewImageFromBuffer, vips_Insert.
  destruct (vips_decode E (td_data tile)) as [im|]; [|reflexivity].
  cbn [result_bind].
  destruct (vips_insert_ok E _ _ im _ _); reflexivity.
Qed.

Lemma paste_loop_dims tiles : forall pano c,
  paste_loop E tiles pano = Ok c ->
  img_w c = img_w pano /\ img_h c = img_h pano.
Proof.
  induction tiles as [|t rest IH]; intros pano c Hrun.
  - cbn in Hrun. injection Hrun as <-. auto.
  - rewrite paste_step in Hrun.
    destruct (vips_decode E (td_data t)) as [im|]; [|discriminate].
    destruct (vips_insert_ok E _ _ im _ _); [|discriminate].
    apply IH in Hrun. exact Hrun.
Qed.

(** The loop succeeds exactly when every tile is pastable on a
    canvas of this size. *)
Lemma paste_loop_ok_iff tiles : forall pano,
  (exists c, paste_loop E tiles pano = Ok c) <->
  forallb (pastable E (img_w pano) (img_h pano)) tiles = true.
Proof.
  induction tiles as [|t rest IH]; intros pano.
  - cbn. split; eauto.
  - rewrite paste_step. cbn [forallb]. unfold pastable at 1.
    destruct (vips_decode E (td_data t)) as [im|].
    + destruct (vips_insert_ok E _ _ im _ _).
      * rewrite IH. cbn. tauto.
      * cbn. split; [intros [c Hc]|]; discriminate.
    + cbn. split; [intros [c Hc]|]; discriminate.
Qed.

(** Each pixel of the result is that of the last tile covering it,
    or of the canvas the loop started from. *)
Lemma paste_loop_pixel tiles : forall pano c,
  (forall t, In t tiles ->
             in_int (tileSize * td_x t) /\ in_int (tileSize * td_y t)) ->
  paste_loop E tiles pano = Ok c ->
  forall i j,
    img_px c i j =
    match find (fun t => covers E t i j) (List.rev tiles) with
    | Some t => tile_pixel E t i j
    | None => img_px pano i j
    end.
Proof.
  induction tiles as [|t rest IH]; intros pano c Hfit Hrun i j.
  - cbn in Hrun. injection Hrun as <-. reflexivity.
  - rewrite paste_step in Hrun.
    destruct (Hfit t (or_introl eq_refl)) as [Hx Hy].
    rewrite !mul_small in Hrun by assumption.
    destruct (vips_decode E (td_data t)) as [im|] eqn:Hdec; [|discriminate].
    destruct (vips_insert_ok E _ _ im _ _); [|discriminate].
    rewrite (IH _ _ (fun t' Ht' => Hfit t' (or_intror Ht')) Hrun i j).
    cbn [List.rev]. rewrite find_app.
    destruct (find (fun t0 => covers E t0 i j) (List.rev rest)); [reflexivity|].
    cbn [find img_px]. unfold covers at 1. rewrite Hdec.
    destruct (in_rect _ _ _ _ i j); [|reflexivity].
    unfold tile_pixel. now rewrite Hdec.
Qed.

Lemma paste_loop_no_insert_error tiles : forall pano,
  forallb (fun t => match vips_decode E (td_data t) with
                    | Some im => vips_insert_ok E (img_w pano) (img_h pano) im
                                   (mul tileSize (td_x t)) (mul tileSize (td_y t))
                    | None => true
                    end) tiles = true ->
  paste_loop E tiles pano <> Err (ErrVips "insert").
Proof.
  induction tiles as [|t rest IH]; intros pano Hall; [discriminate|].
  rewrite paste_step. cbn [forallb] in Hall.
  apply andb_true_iff in Hall. destruct Hall as [Ht Hrest].
  destruct (vips_decode E (td_data t)) as [im|]; [|discriminate].
  rewrite Ht. apply IH. exact Hrest.
Qed.

End WithEnv.

Lemma find_all_false (A : Type) (f : A -> bool) (l : list A) :
  (forall a, In a l -> f a = false) -> find f l = None.
Proof.
  induction l as [|a l IH]; intros H; [reflexivity|].
  cbn. rewrite (H a (or_introl eq_refl)). apply IH. intros b Hb. apply H. now right.
Qed.

Lemma forallb_permutation (A : Type) (f : A -> bool) (l l' : list A) :
  Permutation l l' -> forallb f l = true -> forallb f l' = true.
Proof.
  intros Hp H. rewrite forallb_forall in *. intros a Ha. apply H.
  eapply Permutation_in; [symmetry; eassumption|assumption].
Qed.

Lemma Ret_inj (A : Type) (a b : A) : Ret a = Ret b -> a = b.
Proof. congruence. Qed.

Lemma canvas_size_fits z :
  1 <= z <= 53 ->
  mul tileSize (2 ^ z) = tileSize * 2 ^ z /\
  mul tileSize (2 ^ (z - 1)) = tileSize * 2 ^ (z - 1).
Proof.
  intros Hz.
  assert (H1 : 1 <= 2 ^ z <= 2 ^ 53).
  { split; [apply (Z.pow_le_mono_r 2 0 z); lia|apply Z.pow_le_mono_r; lia]. }
  assert (H2 : 1 <= 2 ^ (z - 1) <= 2 ^ 53).
  { split; [apply (Z.pow_le_mono_r 2 0 (z - 1)); lia|apply Z.pow_le_mono_r; lia]. }
  unfold tileSize.
  split; apply mul_small; unfold in_int, min_int, max_int; lia.
Qed.

Lemma compositePano_canvas_unfold (E : Env) tiles z :
  1 <= z <= 53 ->
  compositePano_canvas E tiles z =
  Ret (pano <- vips_Black E (tileSize * 2 ^ z) (tileSize * 2 ^ (z - 1)) ;;
       paste_loop E tiles pano)%result.
Proof.
  intros Hz. unfold compositePano_canvas.
  rewrite getDimensionsFromZoom_ok by lia. cbn [res_bind width height].
  destruct (canvas_size_fits Hz) as [-> ->]. reflexivity.
Qed.

End CompositorFacts.

Module Compositor.
Import GoInt GoIntFacts PlannerFacts CompositorFacts TestEnv.

Example canvas_zoom1 :
  exists c, compositePano_canvas ok two_tiles 1 = Ret (Ok c) /\
            img_w c = 1024 /\ img_h c = 512 /\
            img_px c 0 0 = 1 /\ img_px c 511 511 = 1 /\
            img_px c 512 0 = 2 /\ img_px c 1023 511 = 2.
Proof. eexists. split; [reflexivity|]. repeat split. Qed.

(** C2, as stated, fails, in the zoom and in the tile set.  At zoom 54
    the canvas width [tileSize * 2^54] overflows [int] to -2^63: an
    allocator that insists on positive sizes refuses it, one that accepts
    any size yields a canvas whose width is not tileSize * 2^54.  And a
    tile of column 2^55 is pasted at offset [tileSize * 2^55] wrapped to
    0: pixel (0, 0), which the tile does not cover at offset
    tileSize * column, takes the tile's colour. *)
Lemma canvas_arithmetic_overflows :
  compositePano_canvas ok [] 54 = Ret (Err (ErrVips "black")) /\
  (exists c, compositePano_canvas any_canvas [] 54 = Ret (Ok c) /\
             img_w c = - 2 ^ 63 /\ img_w c <> tileSize * 2 ^ 54) /\
  (exists c, compositePano_canvas ok far_tile 1 = Ret (Ok c) /\
             (forall t, In t far_tile -> covers ok t 0 0 = false) /\
             img_px c 0 0 <> black).
Proof.
  split; [vm_compute; reflexivity|]. split.
  - eexists. split; [vm_compute; reflexivity|].
    split; vm_compute; [reflexivity|discriminate].
  - eexists. split; [vm_compute; reflexivity|]. split.
    + intros t [<-|[]]. vm_compute. reflexivity.
    + vm_compute. discriminate.
Qed.

(** C2 (amended): for every zoom z with 1 <= z <= 53 and every tile
    set whose pixel offsets tileSize * column and tileSize * row fit
    [int], the compositor asks for a black canvas of size
    (tileSize * 2^z, tileSize * 2^(z-1)) and pastes the tiles on it in
    sequence.  When this succeeds the canvas has that size; a pixel no
    tile covers is black; a pixel covered by a tile, and by no later
    one, is exactly that tile's pixel at offset
    (tileSize * column, tileSize * row), unblended; and any reordering
    of tiles whose regions do not overlap succeeds too and gives the
    same size and the same pixels. *)
Theorem compositePano_canvas_spec (E : Env) (tiles : list tileData) (z : Z) :
  1 <= z <= 53 ->
  (forall t, In t tiles ->
             in_int (tileSize * td_x t) /\ in_int (tileSize * td_y t)) ->
  compositePano_canvas E tiles z =
    Ret (pano <- vips_Black E (tileSize * 2 ^ z) (tileSize * 2 ^ (z - 1)) ;;
         paste_loop E tiles pano)%result /\
  forall c,
    compositePano_canvas E tiles z = Ret (Ok c) ->
    img_w c = tileSize * 2 ^ z /\
    img_h c = tileSize * 2 ^ (z - 1) /\
    (forall i j,
        (forall t, In t tiles -> covers E t i j = false) ->
        img_px c i j = black) /\
    (forall pre t post i j,
        tiles = pre ++ t :: post ->
        covers E t i j = true ->
        (forall t', In t' post -> covers E t' i j = false) ->
        img_px c i j = tile_pixel E t i j) /\
    (forall tiles',
        Permutation tiles tiles' ->
        (forall t1 t2 i j, In t1 tiles -> In t2 tiles ->
                           covers E t1 i j = true -> covers E t2 i j = true ->
                           t1 = t2) ->
        exists c',
          compositePano_canvas E tiles' z = Ret (Ok c') /\
          img_w c' = img_w c /\ img_h c' = img_h c /\
          forall i j, img_px c' i j = img_px c i j).
Proof.
  intros Hz Hfit.
  split; [now apply compositePano_canvas_unfold|].
  intros c Hc. rewrite compositePano_canvas_unfold in Hc by assumption.
  apply Ret_inj in Hc. unfold vips_Black in Hc.
  destruct (vips_black_ok E (tileSize * 2 ^ z) (tileSize * 2 ^ (z - 1))) eqn:Hblack;
    cbn [result_bind] in Hc; [|discriminate].
  set (pano := {| img_w := tileSize * 2 ^ z; img_h := tileSize * 2 ^ (z - 1);
                  img_px := fun _ _ => black |}) in *.
  destruct (@paste_loop_dims E tiles pano c Hc) as [Hw Hh].
  pose proof (@paste_loop_pixel E tiles pano c Hfit Hc) as Hpx.
  split; [exact Hw|]. split; [exact Hh|]. split; [|split].
  - intros i j Hnone. rewrite Hpx, find_all_false; [reflexivity|].
    intros t Ht. apply Hnone. now apply in_rev.
  - intros pre t post i j -> Hcov Hlater. rewrite Hpx.
    rewrite rev_app_distr. cbn [List.rev]. rewrite <- !app_assoc.
    rewrite find_app, find_all_false.
    + cbn [List.app find]. now rewrite Hcov.
    + intros t' Ht'. apply Hlater. now apply in_rev.
  - intros tiles' Hperm Hdisj.
    assert (Hfit' : forall t, In t tiles' ->
               in_int (tileSize * td_x t) /\ in_int (tileSize * td_y t)).
    { intros t Ht. apply Hfit.
      eapply Permutation_in; [symmetry; eassumption|assumption]. }
    assert (Hok : exists c', paste_loop E tiles' pano = Ok c').
    { apply paste_loop_ok_iff. eapply forallb_permutation; [eassumption|].
      apply paste_loop_ok_iff. eauto. }
    destruct Hok as [c' Hc'].
    exists c'. split.
    { rewrite compositePano_canvas_unfold by assumption.
      unfold vips_Black. rewrite Hblack. cbn [result_bind]. fold pano.
      now rewrite Hc'. }
    destruct (@paste_loop_dims E tiles' pano c' Hc') as [Hw' Hh'].
    split; [congruence|]. split; [congruence|].
    intros i j. rewrite Hpx, (@paste_loop_pixel E tiles' pano c' Hfit' Hc').
    assert (Hfind : option_map (fun t => tile_pixel E t i j)
                      (find (fun t => covers E t i j) (List.rev tiles'))
                  = option_map (fun t => tile_pixel E t i j)
                      (find (fun t => covers E t i j) (List.rev tiles))).
    { apply find_permutation.
      - rewrite <- !Permutation_rev. now symmetry.
      - intros a b Ha Hb Hca Hcb.
        apply in_rev in Ha, Hb.
        assert (Hab : a = b).
        { apply (Hdisj a b i j); try assumption;
            eapply Permutation_in; try (symmetry; eassumption); assumption. }
        now rewrite Hab. }
    destruct (find _ (List.rev tiles')), (find _ (List.rev tiles));
      cbn in Hfind; congruence.
Qed.

Lemma compositePano_canvas_spec_witness :
  exists c,
    compositePano_canvas ok two_tiles 1 = Ret (Ok c) /\
    img_w c = tileSize * 2 ^ 1 /\ img_h c = tileSize * 2 ^ (1 - 1) /\
    img_px c 700 700 = black.
Proof.
  assert (Hz : 1 <= 1 <= 53) by lia.
  assert (Hfit : forall t, In t two_tiles ->
                   in_int (tileSize * td_x t) /\ in_int (tileSize * td_y t)).
  { intros t [<-|[<-|[]]]; vm_compute; intuition discriminate. }
  destruct (@compositePano_canvas_spec ok two_tiles 1 Hz Hfit) as [_ Hspec].
  eexists. split; [reflexivity|].
  edestruct Hspec as (Hw & Hh & Hblack & _); [reflexivity|].
  split; [exact Hw|]. split; [exact Hh|].
  apply Hblack. intros t [<-|[<-|[]]]; reflexivity.
Defined.

End Compositor.

Module TestEnvFacts.
Import TestEnv.

Lemma ok_black_positive w h :
  vips_black_ok ok w h = true -> 0 < w /\ 0 < h.
Proof.
  cbn. unfold black_positive. rewrite andb_true_iff, !Z.ltb_lt. tauto.
Qed.

Lemma ok_insert_in_bounds cw ch sub x y :
  0 <= x -> 0 <= y -> x + img_w sub <= cw -> y + img_h sub <= ch ->
  vips_insert_ok ok cw ch sub x y = true.
Proof.
  intros Hx Hy Hw Hh. cbn. unfold insert_in_bounds.
  rewrite !andb_true_iff, !Z.leb_le. tauto.
Qed.

Lemma ok_decode_size buf im :
  vips_decode ok buf = Some im -> img_w im = tileSize /\ img_h im = tileSize.
Proof. cbn. intros [= <-]. auto. Qed.

End TestEnvFacts.

Module Bounds.
Import GoInt GoIntFacts PlannerFacts CompositorFacts TestEnv TestEnvFacts.

Lemma planner_huge_zoom panoId z cfgs :
  63 <= z -> getTilesConfig panoId z = Ret cfgs -> cfgs = [].
Proof.
  intros Hz Hplan.
  destruct (Z.eq_dec z 63) as [->|Hne].
  - vm_compute in Hplan. now injection Hplan.
  - unfold getTilesConfig, getDimensionsFromZoom in Hplan.
    assert (Hw : GoRt.shl 1 z = Ret 0).
    { unfold GoRt.shl, int_bits. destruct (Z.ltb_spec z 0); [lia|].
      destruct (Z.leb_spec 64 z); [reflexivity|lia]. }
    rewrite Hw in Hplan. cbn [res_bind] in Hplan.
    destruct (GoRt.shl 1 (sub z 1)) as [h|v]; cbn [res_bind width height] in Hplan;
      [|discriminate].
    unfold mul in Hplan. rewrite Z.mul_0_l in Hplan.
    change (GoRt.make0 tileConfig (wrap 0)) with (Ret (@nil tileConfig)) in Hplan.
    cbn [res_bind] in Hplan. unfold GoRt.for_lt in Hplan. cbn in Hplan.
    now injection Hplan.
Qed.

Lemma planner_zoom32 panoId cfgs : getTilesConfig panoId 32 <> Ret cfgs.
Proof.
  unfold getTilesConfig. rewrite getDimensionsFromZoom_ok by lia.
  cbn [res_bind width height].
  replace (mul (2 ^ 32) (2 ^ (32 - 1))) with (- 2 ^ 63) by (vm_compute; reflexivity).
  discriminate.
Qed.

Lemma canvas_width_not_positive z :
  54 <= z <= 62 -> mul tileSize (2 ^ z) <= 0.
Proof.
  intros Hz.
  pose (P := fun z => (z <? 54) || (mul tileSize (2 ^ z) <=? 0)).
  assert (HP : P z = true).
  { apply (@forallb_zrange P 63); [vm_compute; reflexivity|lia]. }
  unfold P in HP. destruct (Z.ltb_spec z 54); [lia|].
  cbn [orb] in HP. now apply Z.leb_le.
Qed.

Section WithEnv.
Variable E : Env.

Lemma compositePano_insert_error tiles z :
  compositePano_canvas E tiles z <> Ret (Err (ErrVips "insert")) ->
  compositePano E tiles z <> Ret (Err (ErrVips "insert")).
Proof.
  unfold compositePano. intros Hcanvas.
  destruct (compositePano_canvas E tiles z) as [[pano|e]|v]; cbn.
  - unfold trim. destruct (vips_FindTrim E pano trimThreshold) as [[[[l t] w] h]|];
      [|discriminate].
    unfold vips_ExtractArea. destruct (vips_extract_ok E pano l t w h); discriminate.
  - congruence.
  - discriminate.
Qed.

Lemma canvas_of_no_tiles z :
  compositePano_canvas E [] z <> Ret (Err (ErrVips "insert")).
Proof.
  unfold compositePano_canvas.
  destruct (getDimensionsFromZoom z) as [dim|v]; cbn [res_bind]; [|discriminate].
  unfold vips_Black. destruct (vips_black_ok E _ _); cbn; discriminate.
Qed.

End WithEnv.

(** C5: for every zoom z >= 1 and every descriptor of the planner, the
    tileSize-by-tileSize square at offset
    (tileSize * column, tileSize * row) lies within the canvas of size
    (tileSize * 2^z, tileSize * 2^(z-1)).  Hence, with an imaging
    library whose canvases have positive sizes and whose paste accepts
    every region inside the canvas, the compositor given tiles at
    exactly the planner's coordinates, each decoding to a
    tileSize-by-tileSize image, never returns the error of the paste. *)
Theorem paste_within_canvas (E : Env) (panoId : string) (z : Z)
        (cfgs : list tileConfig) (tiles : list tileData) :
  1 <= z ->
  getTilesConfig panoId z = Ret cfgs ->
  map (fun d => (td_x d, td_y d)) tiles = map coords cfgs ->
  (forall t im, In t tiles -> vips_decode E (td_data t) = Some im ->
                img_w im = tileSize /\ img_h im = tileSize) ->
  (forall w h, vips_black_ok E w h = true -> 0 < w /\ 0 < h) ->
  (forall cw ch sub x y,
      0 <= x -> 0 <= y -> x + img_w sub <= cw -> y + img_h sub <= ch ->
      vips_insert_ok E cw ch sub x y = true) ->
  (forall t, In t cfgs ->
             0 <= tileSize * cfg_x t /\
             tileSize * cfg_x t + tileSize <= tileSize * 2 ^ z /\
             0 <= tileSize * cfg_y t /\
             tileSize * cfg_y t + tileSize <= tileSize * 2 ^ (z - 1)) /\
  compositePano_canvas E tiles z <> Ret (Err (ErrVips "insert")) /\
  compositePano E tiles z <> Ret (Err (ErrVips "insert")).
Proof.
  intros Hz Hplan Hcoords Hdec Hblack Hinsert.
  assert (Hgoal :
    (forall t, In t cfgs ->
               0 <= tileSize * cfg_x t /\
               tileSize * cfg_x t + tileSize <= tileSize * 2 ^ z /\
               0 <= tileSize * cfg_y t /\
               tileSize * cfg_y t + tileSize <= tileSize * 2 ^ (z - 1)) /\
    compositePano_canvas E tiles z <> Ret (Err (ErrVips "insert"))).
  2:{ destruct Hgoal as [Hgeo Hcanvas].
      split; [exact Hgeo|]. split; [exact Hcanvas|].
      now apply compositePano_insert_error. }
  destruct (Z.le_gt_cases 63 z) as [Hbig|Hsmall].
  { (* the planner yields nothing *)
    apply planner_huge_zoom in Hplan; [|assumption]. subst cfgs.
    apply map_eq_nil in Hcoords. subst tiles.
    split; [intros t []|apply canvas_of_no_tiles]. }
  destruct (Z.eq_dec z 32) as [->|Hne].
  { now apply planner_zoom32 in Hplan. }
  rewrite getTilesConfig_grid in Hplan by lia.
  injection Hplan as <-.
  assert (Hrange : forall t, In t tiles ->
                     0 <= td_x t < 2 ^ z /\ 0 <= td_y t < 2 ^ (z - 1)).
  { intros t Ht.
    assert (Hin : In (td_x t, td_y t) (map coords (grid panoId z (2 ^ z) (2 ^ (z - 1))))).
    { rewrite <- Hcoords. apply in_map_iff. eauto. }
    apply in_map_iff in Hin. destruct Hin as [cfg [Hc Hin]].
    apply grid_In in Hin. unfold coords in Hc. injection Hc as <- <-. tauto. }
  split.
  { intros t Ht. apply grid_In in Ht. unfold tileSize. lia. }
  destruct (Z.le_gt_cases z 53) as [Hfit|Hover].
  - (* sizes and offsets fit [int] *)
    rewrite compositePano_canvas_unfold by lia.
    unfold vips_Black.
    destruct (vips_black_ok E (tileSize * 2 ^ z) (tileSize * 2 ^ (z - 1)));
      cbn [result_bind]; [|discriminate].
    intros Heq. apply Ret_inj in Heq. revert Heq.
    apply paste_loop_no_insert_error. cbn [img_w img_h].
    apply forallb_forall. intros t Ht.
    destruct (vips_decode E (td_data t)) as [im|] eqn:Hd; [|reflexivity].
    destruct (Hdec t im Ht Hd) as [Hw Hh].
    destruct (Hrange t Ht) as [Hx Hy].
    assert (Hp : 2 ^ z <= 2 ^ 53) by (apply Z.pow_le_mono_r; lia).
    assert (Hq : 2 ^ (z - 1) <= 2 ^ 53) by (apply Z.pow_le_mono_r; lia).
    rewrite !mul_small by (unfold in_int, min_int, max_int, tileSize; lia).
    apply Hinsert; rewrite ?Hw, ?Hh; unfold tileSize; lia.
  - (* the canvas width overflows and no canvas is allocated *)
    unfold compositePano_canvas.
    rewrite getDimensionsFromZoom_ok by lia. cbn [res_bind width height].
    unfold vips_Black.
    destruct (vips_black_ok E (mul tileSize (2 ^ z)) (mul tileSize (2 ^ (z - 1))))
      eqn:Hb; cbn [result_bind]; [|discriminate].
    apply Hblack in Hb. pose proof (@canvas_width_not_positive z). lia.
Qed.

Lemma paste_within_canvas_witness :
  compositePano_canvas ok two_tiles 1 <> Ret (Err (ErrVips "insert")) /\
  compositePano ok two_tiles 1 <> Ret (Err (ErrVips "insert")).
Proof.
  assert (Hz : 1 <= 1) by lia.
  refine (proj2 (@paste_within_canvas ok "ABC" 1 _ two_tiles Hz eq_refl eq_refl
                   _ ok_black_positive ok_insert_in_bounds)).
  intros t im _ Hd. exact (ok_decode_size Hd).
Defined.

End Bounds.

(** ** Entry point *)

Module Pipeline.
Import TestEnv.

(** C10: when download, composition and JPEG export succeed, [main]
    calls [os.WriteFile] on pano.jpg and returns normally whatever that
    call answers: a failed write raises no panic and is not reported. *)
Theorem main_ignores_write_error
        (E : Env) (h h1 : trace) (tiles : list tileData) (pano : image)
        (imageBytes : list Byte.byte) (err : option error) :
  getTiles E mainPanoId defaultZoom mainClient (h ++ [EvStartup]) = (Ret (Ok tiles), h1) ->
  compositePano E tiles defaultZoom = Ret (Ok pano) ->
  vips_Export E pano = Some imageBytes ->
  os_WriteFile E (h1 ++ [EvCompositePano]) "pano.jpg" imageBytes = err ->
  main E h =
    (Ret tt,
     h1 ++ [EvCompositePano; EvWriteFile "pano.jpg" imageBytes 420; EvShutdown]).
Proof.
  intros Hget Hcomp Hexp _.
  unfold main, main_body, bind, lift, emit, history, ret, WriteFile, Export.
  change "KGt-9AaQ7UTn_PgwRqtTOg" with mainPanoId.
  change (NewClient {| lim_every_ms := 200; lim_burst := 1 |}) with mainClient.
  rewrite Hget, Hcomp, Hexp.
  unfold bind, emit, history, ret. cbn beta iota.
  now rewrite <- !app_assoc.
Qed.

(** Composition succeeds as soon as the canvas is granted, every tile
    is pastable on it, and trimming never refuses. *)
Lemma compositePano_succeeds (E : Env) (tiles : list tileData) (z : Z) (dim : dimensions) :
  getDimensionsFromZoom z = Ret dim ->
  vips_black_ok E (GoInt.mul tileSize (width dim)) (GoInt.mul tileSize (height dim)) = true ->
  forallb (pastable E (GoInt.mul tileSize (width dim)) (GoInt.mul tileSize (height dim)))
          tiles = true ->
  (forall im, vips_FindTrim E im trimThreshold <> None) ->
  (forall im l t w h, vips_extract_ok E im l t w h = true) ->
  exists pano, compositePano E tiles z = Ret (Ok pano).
Proof.
  intros Hdim Hblack Hpaste Htrim Hextract.
  unfold compositePano, compositePano_canvas, vips_Black.
  rewrite Hdim. cbn [res_bind]. rewrite Hblack. cbn [result_bind].
  set (canvas := {| img_w := GoInt.mul tileSize (width dim);
                    img_h := GoInt.mul tileSize (height dim);
                    img_px := fun _ _ => black |}).
  destruct (proj2 (CompositorFacts.paste_loop_ok_iff E tiles canvas) Hpaste) as [c ->].
  cbn [result_bind]. unfold trim.
  destruct (vips_FindTrim E c trimThreshold) as [[[[l t] w] h]|] eqn:Hbox;
    [|now apply Htrim in Hbox].
  unfold vips_ExtractArea. rewrite Hextract. eauto.
Qed.

Lemma disk_full_composes :
  exists pano, compositePano disk_full disk_full_tiles defaultZoom = Ret (Ok pano).
Proof.
  apply compositePano_succeeds
    with (dim := {| width := 16; height := 8 |});
    solve [vm_compute; reflexivity | intros; discriminate].
Qed.

Lemma main_ignores_write_error_witness :
  os_WriteFile disk_full (snd disk_full_download ++ [EvCompositePano]) "pano.jpg" []
    = Some (ErrIO "no space left on device") /\
  fst (main disk_full []) = Ret tt.
Proof.
  split; [reflexivity|].
  destruct disk_full_composes as [pano Hcomp].
  rewrite (@main_ignores_write_error disk_full [] (snd disk_full_download)
             disk_full_tiles pano [] (Some (ErrIO "no space left on device")));
    [reflexivity| |exact Hcomp|reflexivity|reflexivity].
  vm_compute. reflexivity.
Defined.

End Pipeline.

(** * Further properties of the planner *)

Module PlannerCases.
Import GoInt GoIntFacts PlannerFacts UrlFacts.

Lemma shl_1_big z : 64 <= z -> GoRt.shl 1 z = Ret 0.
Proof.
  intros Hz. unfold GoRt.shl, int_bits.
  destruct (Z.ltb_spec z 0); [lia|].
  destruct (Z.leb_spec 64 z); [reflexivity|lia].
Qed.

Lemma shl_1_63 : GoRt.shl 1 63 = Ret (- 2 ^ 63).
Proof. vm_compute. reflexivity. Qed.

Lemma sub_1 z : in_int z -> min_int < z -> sub z 1 = z - 1.
Proof.
  intros Hz Hmin. apply wrap_small. unfold in_int, min_int, max_int in *. lia.
Qed.

Lemma dimensions_nonpositive z :
  z <= 0 -> getDimensionsFromZoom z = Panic (RuntimeError "negative shift amount").
Proof.
  intros Hz. unfold getDimensionsFromZoom.
  destruct (Z.eq_dec z 0) as [->|Hnz]; [reflexivity|].
  now rewrite shl_negative by lia.
Qed.

Lemma dimensions_huge z :
  in_int z -> 65 <= z -> getDimensionsFromZoom z = Ret {| width := 0; height := 0 |}.
Proof.
  intros Hint Hz. unfold getDimensionsFromZoom.
  rewrite shl_1_big by lia. cbn [res_bind].
  rewrite sub_1 by (unfold min_int; auto; lia).
  now rewrite shl_1_big by lia.
Qed.

Lemma plan_nonpositive panoId z :
  z <= 0 -> getTilesConfig panoId z = Panic (RuntimeError "negative shift amount").
Proof.
  intros Hz. unfold getTilesConfig. now rewrite dimensions_nonpositive.
Qed.

Lemma plan_zoom32 panoId :
  getTilesConfig panoId 32 = Panic (RuntimeError "makeslice: cap out of range").
Proof.
  unfold getTilesConfig. rewrite getDimensionsFromZoom_ok by lia.
  cbn [res_bind width height].
  replace (mul (2 ^ 32) (2 ^ (32 - 1))) with (- 2 ^ 63) by (vm_compute; reflexivity).
  reflexivity.
Qed.

Lemma plan_huge panoId z :
  in_int z -> 63 <= z -> getTilesConfig panoId z = Ret [].
Proof.
  intros Hint Hz.
  destruct (Z.eq_dec z 63) as [->|H63]; [vm_compute; reflexivity|].
  destruct (Z.eq_dec z 64) as [->|H64]; [vm_compute; reflexivity|].
  unfold getTilesConfig. rewrite dimensions_huge by (auto; lia).
  reflexivity.
Qed.

Lemma grid_NoDup_urls panoId zoom w h : NoDup (map cfg_url (grid panoId zoom w h)).
Proof.
  apply Finite.Injective_map_NoDup_in.
  - intros a b Ha Hb Hurl.
    apply grid_In in Ha, Hb.
    destruct Ha as (_ & _ & Ha), Hb as (_ & _ & Hb).
    rewrite Ha, Hb in Hurl. cbn [cfg_url] in Hurl.
    apply makePanoUrl_inj in Hurl. destruct Hurl as (_ & _ & Hx & Hy).
    rewrite Ha, Hb, Hx, Hy. reflexivity.
  - eapply NoDup_map_inv. apply grid_coords_NoDup.
Qed.

(** X1: [getDimensionsFromZoom] on every [int]: it panics for zoom <= 0;
    it yields (2^zoom, 2^(zoom-1)), twice as wide as high, for
    1 <= zoom <= 62; past that the shifts overflow: (-2^63, 2^62) at 63,
    (0, -2^63) at 64 and (0, 0) from 65 on. *)
Theorem getDimensionsFromZoom_cases (zoom : Z) :
  in_int zoom ->
  getDimensionsFromZoom zoom =
    (if zoom <=? 0 then Panic (RuntimeError "negative shift amount")
     else if zoom <=? 62 then Ret {| width := 2 ^ zoom; height := 2 ^ (zoom - 1) |}
     else if zoom =? 63 then Ret {| width := - 2 ^ 63; height := 2 ^ 62 |}
     else if zoom =? 64 then Ret {| width := 0; height := - 2 ^ 63 |}
     else Ret {| width := 0; height := 0 |}) /\
  (1 <= zoom <= 62 ->
   exists dim, getDimensionsFromZoom zoom = Ret dim /\
               width dim = 2 * height dim /\ 0 < height dim).
Proof.
  intros Hint. split.
  - destruct (Z.leb_spec zoom 0); [now apply dimensions_nonpositive|].
    destruct (Z.leb_spec zoom 62); [apply getDimensionsFromZoom_ok; lia|].
    destruct (Z.eqb_spec zoom 63) as [->|]; [vm_compute; reflexivity|].
    destruct (Z.eqb_spec zoom 64) as [->|]; [vm_compute; reflexivity|].
    apply dimensions_huge; [assumption|lia].
  - intros Hz. eexists. split; [now apply getDimensionsFromZoom_ok|].
    cbn [width height]. pose proof (@pow2_le_62 (zoom - 1)).
    replace zoom with (zoom - 1 + 1) at 1 by lia.
    rewrite Z.pow_add_r by lia. lia.
Qed.

Lemma getDimensionsFromZoom_cases_witness :
  getDimensionsFromZoom 4 = Ret {| width := 16; height := 8 |}.
Proof.
  assert (Hint : in_int 4) by (unfold in_int, min_int, max_int; lia).
  exact (proj1 (getDimensionsFromZoom_cases Hint)).
Defined.



(** X3: whatever the zoom, the descriptors the planner returns have
    pairwise distinct URLs: no tile is planned twice and no two tiles
    are fetched from the same address. *)
Theorem getTilesConfig_urls_distinct (panoId : string) (zoom : Z) (tiles : list tileConfig) :
  getTilesConfig panoId zoom = Ret tiles ->
  NoDup (map cfg_url tiles) /\ NoDup tiles.
Proof.
  intros Hplan.
  assert (Hurls : NoDup (map cfg_url tiles)).
  { destruct (Z.le_gt_cases zoom 0) as [Hneg|Hpos].
    { rewrite plan_nonpositive in Hplan by assumption. discriminate. }
    destruct (Z.le_gt_cases 63 zoom) as [Hbig|Hsmall].
    { apply Bounds.planner_huge_zoom in Hplan; [|assumption]. subst. constructor. }
    destruct (Z.eq_dec zoom 32) as [->|Hne].
    { rewrite plan_zoom32 in Hplan. discriminate. }
    rewrite getTilesConfig_grid in Hplan by lia. injection Hplan as <-.
    apply grid_NoDup_urls. }
  split; [exact Hurls|]. eapply NoDup_map_inv. exact Hurls.
Qed.

Lemma getTilesConfig_urls_distinct_witness :
  exists tiles, getTilesConfig "ABC" 2 = Ret tiles /\
                NoDup (map cfg_url tiles) /\ NoDup tiles.
Proof.
  eexists. split; [reflexivity|].
  apply (@getTilesConfig_urls_distinct "ABC" 2). reflexivity.
Defined.

End PlannerCases.

(** * Further properties of the downloader *)

Module DownloadCases.
Import FetchFacts DownloadFacts PlannerCases TestEnv.

Lemma guarded_weaken evs : guarded_from false evs = true -> guarded_from true evs = true.
Proof.
  destruct evs as [|e evs]; [reflexivity|]. destruct e; cbn; auto.
  intros H. discriminate.
Qed.

Lemma guarded_app a : forall waited c,
  guarded_from waited a = true -> guarded_from false c = true ->
  guarded_from waited (a ++ c) = true.
Proof.
  induction a as [|e a IH]; intros waited c Ha Hc.
  - destruct waited; [now apply guarded_weaken|exact Hc].
  - destruct e; cbn in *; auto.
    + destruct ctx as [|b]; auto.
    + apply andb_true_iff in Ha. destruct Ha as [-> Ha]. cbn. auto.
Qed.

Lemma requests_app (a b : trace) : requests (a ++ b) = requests a ++ requests b.
Proof.
  induction a as [|e a IH]; [reflexivity|].
  destruct e; cbn; rewrite ?IH; reflexivity.
Qed.

Lemma prefix_nil (A : Type) (l : list A) : prefix [] l.
Proof. now exists l. Qed.

Lemma prefix_cons (A : Type) (a : A) (l full : list A) :
  prefix l full -> prefix (a :: l) (a :: full).
Proof. intros [rest <-]. now exists rest. Qed.

Lemma prefix_refl (A : Type) (l : list A) : prefix l l.
Proof. exists []. apply app_nil_r. Qed.

Section WithEnv.
Variable E : Env.

(** The three shapes of what one fetch adds to the trace. *)
Lemma fetch_shape (config : tileConfig) (c : RLHTTPClient) (h : trace) :
  exists r evs,
    fetchTile E config c h = (Ret r, h ++ evs) /\
    (evs = [] \/ evs = [EvWait Background] \/
     evs = [EvWait Background; EvClientDo (request_of config)]) /\
    (forall bytes, r = Ok bytes ->
                   evs = [EvWait Background; EvClientDo (request_of config)]).
Proof.
  rewrite fetchTile_cases.
  destruct (http_NewRequest E "GET" (cfg_url config)) as [e|].
  { exists (Err e), []. rewrite app_nil_r. split; [reflexivity|].
    split; [auto|discriminate]. }
  cbv zeta.
  destruct (rate_Wait E (rl c) h Background) as [e|].
  { exists (Err e), [EvWait Background]. split; [reflexivity|].
    split; [auto|discriminate]. }
  eexists. exists [EvWait Background; EvClientDo (request_of config)].
  split; [rewrite <- app_assoc; reflexivity|]. auto.
Qed.

(** What a run of the download loop, whatever its outcome, leaves in
    the trace. *)
Lemma loop_discipline n c tiles : forall results h r h',
  getTiles_loop E n c tiles results h = (r, h') ->
  exists evs k,
    h' = h ++ evs /\
    guarded evs = true /\
    prefix (requests evs) (map request_of tiles) /\
    filter is_println evs = flat_map (progress_pair n) (firstn k tiles) /\
    (exists x, r = Ret x) /\
    (forall tds, r = Ret (Ok tds) ->
                 k = List.length tiles /\ requests evs = map request_of tiles) /\
    (forall e, r = Ret (Err e) -> (0 < k)%nat).
Proof.
  induction tiles as [|tile rest IH]; intros results h r h' Hrun.
  - cbn in Hrun. injection Hrun as <- <-. exists [], 0%nat.
    rewrite app_nil_r. repeat split; eauto using prefix_nil; discriminate.
  - rewrite loop_step in Hrun.
    destruct (fetch_shape tile c (h ++ [progress "[Fetching]" tile n]))
      as (r1 & evs1 & Hfetch & Hshape & Hok).
    rewrite Hfetch in Hrun. destruct r1 as [bytes|e].
    + rewrite (Hok bytes eq_refl) in *. clear Hshape Hok.
      apply IH in Hrun.
      destruct Hrun as (evs & k & -> & Hg & Hp & Hlog & Hret & Hall & Hpos).
      exists ([progress "[Fetching]" tile n; EvWait Background;
               EvClientDo (request_of tile); progress "[Done]" tile n] ++ evs),
             (S k).
      split; [now rewrite <- !app_assoc|].
      split; [exact Hg|].
      split; [cbn; now apply prefix_cons|].
      split; [cbn; now rewrite Hlog|].
      split; [exact Hret|].
      split.
      * intros tds Htds. destruct (Hall tds Htds) as [-> Hreq].
        split; [reflexivity|]. cbn. now rewrite Hreq.
      * intros; lia.
    + injection Hrun as <- <-.
      exists ([progress "[Fetching]" tile n] ++ evs1 ++ [progress "[Done]" tile n]),
             1%nat.
      split; [now rewrite <- !app_assoc|].
      split; [|split; [|split; [|split; [|split]]]].
      * destruct Hshape as [->|[->| ->]]; reflexivity.
      * destruct Hshape as [->|[->| ->]]; cbn;
          auto using prefix_nil, prefix_cons.
      * destruct Hshape as [->|[->| ->]]; reflexivity.
      * eauto.
      * discriminate.
      * intros; lia.
Qed.

Lemma getTiles_unfold panoId zoom c h :
  getTiles E panoId zoom c h =
  match getTilesConfig panoId zoom with
  | Ret cfgs => getTiles_loop E (List.length cfgs) c cfgs [] h
  | Panic v => (Panic v, h)
  end.
Proof.
  unfold getTiles, bind, lift. destruct (getTilesConfig panoId zoom); reflexivity.
Qed.

End WithEnv.



(** X5: whatever its outcome, [getTiles] hands to the HTTP client only
    requests of the plan (GET, on a background context, the descriptor's
    URL), in planner order and each at most once, and every request
    comes right after a wait on the limiter.  When the planner panics
    nothing is requested. *)
Theorem getTiles_request_discipline (E : Env) (panoId : string) (zoom : Z)
        (c : RLHTTPClient) (h : trace) (r : res (result (list tileData))) (h' : trace) :
  getTiles E panoId zoom c h = (r, h') ->
  exists evs,
    h' = h ++ evs /\
    guarded evs = true /\
    (forall cfgs, getTilesConfig panoId zoom = Ret cfgs ->
                  prefix (requests evs) (map request_of cfgs) /\
                  (forall tds, r = Ret (Ok tds) -> requests evs = map request_of cfgs)) /\
    (forall v, getTilesConfig panoId zoom = Panic v -> evs = [] /\ r = Panic v).
Proof.
  rewrite getTiles_unfold.
  destruct (getTilesConfig panoId zoom) as [cfgs|v] eqn:Hplan.
  - intros Hrun. apply loop_discipline in Hrun.
    destruct Hrun as (evs & k & -> & Hg & Hp & _ & _ & Hall & _).
    exists evs. split; [reflexivity|]. split; [exact Hg|]. split.
    + intros cfgs' [= <-]. split; [exact Hp|]. intros tds Htds.
      now destruct (Hall tds Htds).
    + discriminate.
  - intros [= <- <-]. exists []. rewrite app_nil_r.
    split; [reflexivity|]. split; [reflexivity|]. split; [discriminate|].
    intros v' [= <-]. auto.
Qed.

Lemma getTiles_request_discipline_witness :
  exists evs,
    snd (getTiles (fail_at 2) "ABC" 1 mainClient []) = [] ++ evs /\
    guarded evs = true /\
    requests evs =
      [request_of {| cfg_x := 0; cfg_y := 0; cfg_url := makePanoUrl "ABC" 1 0 0 |};
       request_of {| cfg_x := 1; cfg_y := 0; cfg_url := makePanoUrl "ABC" 1 1 0 |}].
Proof.
  destruct (@getTiles_request_discipline (fail_at 2) "ABC" 1 mainClient [] _ _
              (surjective_pairing _)) as (evs & Hevs & Hg & _ & _).
  exists evs. split; [exact Hevs|]. split; [exact Hg|].
  rewrite app_nil_l in Hevs. rewrite <- Hevs. reflexivity.
Defined.

(** X6: the progress lines of [getTiles] always come in complete pairs,
    "[Fetching] x y of n" then "[Done] x y of n", for an initial segment
    of the plan, [n] being the size of the whole plan: the "[Done]" line
    is printed even for the fetch that fails.  On success the segment is
    the whole plan; on failure it is not empty. *)
Theorem getTiles_progress_lines (E : Env) (panoId : string) (zoom : Z)
        (c : RLHTTPClient) (h : trace) (cfgs : list tileConfig)
        (r : res (result (list tileData))) (h' : trace) :
  getTilesConfig panoId zoom = Ret cfgs ->
  getTiles E panoId zoom c h = (r, h') ->
  exists evs k,
    h' = h ++ evs /\
    filter is_println evs =
      flat_map (progress_pair (List.length cfgs)) (firstn k cfgs) /\
    (forall tds, r = Ret (Ok tds) -> k = List.length cfgs) /\
    (forall e, r = Ret (Err e) -> (0 < k)%nat).
Proof.
  intros Hplan. rewrite getTiles_unfold, Hplan. intros Hrun.
  apply loop_discipline in Hrun.
  destruct Hrun as (evs & k & -> & _ & _ & Hlog & _ & Hall & Hpos).
  exists evs, k. split; [reflexivity|]. split; [exact Hlog|].
  split; [|exact Hpos]. intros tds Htds. now destruct (Hall tds Htds).
Qed.

Lemma getTiles_progress_lines_witness :
  filter is_println (snd (getTiles (fail_at 1) "ABC" 1 mainClient [])) =
    [EvPrintln "[Fetching] 0 0 of 2"; EvPrintln "[Done] 0 0 of 2"] /\
  exists evs k,
    snd (getTiles (fail_at 1) "ABC" 1 mainClient []) = [] ++ evs /\
    filter is_println evs =
      flat_map (progress_pair 2)
               (firstn k [ {| cfg_x := 0; cfg_y := 0; cfg_url := makePanoUrl "ABC" 1 0 0 |};
                           {| cfg_x := 1; cfg_y := 0; cfg_url := makePanoUrl "ABC" 1 1 0 |} ]).
Proof.
  split; [reflexivity|].
  destruct (@getTiles_progress_lines (fail_at 1) "ABC" 1 mainClient [] _ _ _
              eq_refl (surjective_pairing _)) as (evs & k & Hevs & Hlog & _).
  exists evs, k. split; [exact Hevs|exact Hlog].
Defined.

(** X7: when there is no plan, [getTiles] does nothing: for zoom <= 0
    and for zoom 32 it stops in the planner's panic, and for zoom >= 63
    it returns the empty tile list, in each case without a progress
    line, a wait or a request. *)
Theorem getTiles_without_plan (E : Env) (panoId : string) (zoom : Z)
        (c : RLHTTPClient) (h : trace) :
  GoInt.in_int zoom ->
  (zoom <= 0 ->
   getTiles E panoId zoom c h = (Panic (RuntimeError "negative shift amount"), h)) /\
  (zoom = 32 ->
   getTiles E panoId zoom c h = (Panic (RuntimeError "makeslice: cap out of range"), h)) /\
  (63 <= zoom -> getTiles E panoId zoom c h = (Ret (Ok []), h)).
Proof.
  intros Hint. rewrite getTiles_unfold. repeat split.
  - intros Hz. now rewrite plan_nonpositive.
  - intros ->. now rewrite plan_zoom32.
  - intros Hz. now rewrite plan_huge.
Qed.

Lemma getTiles_without_plan_witness :
  getTiles ok "ABC" 0 mainClient [] = (Panic (RuntimeError "negative shift amount"), []) /\
  getTiles ok "ABC" 63 mainClient [] = (Ret (Ok []), []).
Proof.
  split.
  - assert (Hint : GoInt.in_int 0) by (unfold GoInt.in_int, GoInt.min_int, GoInt.max_int; lia).
    apply (proj1 (@getTiles_without_plan ok "ABC" 0 mainClient [] Hint)). lia.
  - assert (Hint : GoInt.in_int 63) by (unfold GoInt.in_int, GoInt.min_int, GoInt.max_int; lia).
    apply (proj2 (proj2 (@getTiles_without_plan ok "ABC" 63 mainClient [] Hint))). lia.
Defined.

End DownloadCases.

(** * Further properties of the compositor *)

Module CompositorCases.
Import GoInt GoIntFacts PlannerFacts PlannerCases CompositorFacts TestEnv.

Section WithEnv.
Variable E : Env.

Lemma paste_loop_first_failure pre : forall pano t post,
  forallb (pastable E (img_w pano) (img_h pano)) pre = true ->
  pastable E (img_w pano) (img_h pano) t = false ->
  paste_loop E (pre ++ t :: post) pano =
  Err (ErrVips (match vips_decode E (td_data t) with
                | None => "decode"
                | Some _ => "insert"
                end)).
Proof.
  induction pre as [|a pre IH]; intros pano t post Hpre Ht.
  - rewrite app_nil_l, paste_step. unfold pastable in Ht.
    destruct (vips_decode E (td_data t)) as [im|]; [|reflexivity].
    now rewrite Ht.
  - rewrite <- app_comm_cons, paste_step.
    cbn [forallb] in Hpre. apply andb_true_iff in Hpre. destruct Hpre as [Ha Hpre].
    unfold pastable at 1 in Ha.
    destruct (vips_decode E (td_data a)) as [im|]; [|discriminate].
    rewrite Ha. now apply IH.
Qed.

Lemma compositePano_unfold tiles z :
  compositePano E tiles z =
  match getDimensionsFromZoom z with
  | Panic v => Panic v
  | Ret dim =>
      Ret (pano <- vips_Black E (mul tileSize (width dim)) (mul tileSize (height dim)) ;;
           canvas <- paste_loop E tiles pano ;;
           trim E canvas)%result
  end.
Proof.
  unfold compositePano, compositePano_canvas.
  destruct (getDimensionsFromZoom z) as [dim|v]; [|reflexivity].
  cbn [res_bind]. f_equal.
  destruct (vips_Black E _ _) as [pano|e]; [|reflexivity].
  cbn [result_bind]. destruct (paste_loop E tiles pano); reflexivity.
Qed.

End WithEnv.

(** X8: composition stops at the first tile that cannot be pasted: when
    the canvas is granted and the tiles before it are pasted, a tile that
    does not decode gives the decode error and a tile whose paste is
    refused gives the paste error, whatever the tiles after it; nothing
    is trimmed. *)
Theorem compositePano_first_failure (E : Env) (pre : list tileData) (t : tileData)
        (post : list tileData) (zoom : Z) (dim : dimensions) :
  getDimensionsFromZoom zoom = Ret dim ->
  vips_black_ok E (mul tileSize (width dim)) (mul tileSize (height dim)) = true ->
  forallb (pastable E (mul tileSize (width dim)) (mul tileSize (height dim))) pre = true ->
  pastable E (mul tileSize (width dim)) (mul tileSize (height dim)) t = false ->
  compositePano E (pre ++ t :: post) zoom =
  Ret (Err (ErrVips (match vips_decode E (td_data t) with
                     | None => "decode"
                     | Some _ => "insert"
                     end))).
Proof.
  intros Hdim Hblack Hpre Ht.
  rewrite compositePano_unfold, Hdim. unfold vips_Black. rewrite Hblack.
  cbn [result_bind].
  rewrite paste_loop_first_failure by assumption. reflexivity.
Qed.

Lemma compositePano_first_failure_witness :
  compositePano ok tiles_with_stray 1 = Ret (Err (ErrVips "insert")).
Proof.
  apply (@compositePano_first_failure ok
           [ {| td_x := 0; td_y := 0; td_data := [Byte.x01] |} ]
           {| td_x := 5; td_y := 0; td_data := [Byte.x02] |}
           [ {| td_x := 1; td_y := 0; td_data := [Byte.x03] |} ]
           1 {| width := 2; height := 1 |}); reflexivity.
Defined.

(** X9: what [compositePano] returns on success is the assembled canvas
    cropped to the box that [FindTrim] reports for threshold 6: it has
    the width and height of the box, and its pixel (i, j) is the canvas
    pixel (i + left, j + top), that is, for zooms 1 to 53 and offsets
    that fit [int], the pixel of the last tile covering that point, or
    black. *)
Theorem compositePano_cropped (E : Env) (tiles : list tileData) (zoom : Z) (out : image) :
  1 <= zoom <= 53 ->
  (forall t, In t tiles ->
             in_int (tileSize * td_x t) /\ in_int (tileSize * td_y t)) ->
  compositePano E tiles zoom = Ret (Ok out) ->
  exists canvas l t w h,
    compositePano_canvas E tiles zoom = Ret (Ok canvas) /\
    vips_FindTrim E canvas 6 = Some (l, t, w, h) /\
    img_w out = w /\ img_h out = h /\
    (forall i j, img_px out i j = img_px canvas (i + l) (j + t)) /\
    (forall i j,
        img_px out i j =
        match find (fun d => covers E d (i + l) (j + t)) (List.rev tiles) with
        | Some d => tile_pixel E d (i + l) (j + t)
        | None => black
        end).
Proof.
  intros Hz Hfit Hrun. unfold compositePano in Hrun.
  rewrite compositePano_canvas_unfold by assumption.
  rewrite compositePano_canvas_unfold in Hrun by assumption.
  cbn [res_bind] in Hrun. apply Ret_inj in Hrun.
  unfold vips_Black in *.
  destruct (vips_black_ok E (tileSize * 2 ^ zoom) (tileSize * 2 ^ (zoom - 1)));
    cbn [result_bind] in *; [|discriminate].
  destruct (paste_loop E tiles _) as [canvas|e] eqn:Hpaste;
    cbn [result_bind] in Hrun; [|discriminate].
  unfold trim, trimThreshold in Hrun.
  destruct (vips_FindTrim E canvas 6) as [[[[l t] w] h]|] eqn:Hbox; [|discriminate].
  unfold vips_ExtractArea in Hrun.
  destruct (vips_extract_ok E canvas l t w h); [|discriminate].
  injection Hrun as <-.
  exists canvas, l, t, w, h. cbn [img_w img_h img_px].
  repeat split; try reflexivity; try assumption.
  intros i j. rewrite (@paste_loop_pixel E tiles _ canvas Hfit Hpaste). reflexivity.
Qed.

Lemma compositePano_cropped_witness :
  exists out, compositePano ok two_tiles 1 = Ret (Ok out) /\
              img_w out = 1024 /\ img_h out = 512.
Proof.
  assert (Hz : 1 <= 1 <= 53) by lia.
  assert (Hfit : forall t, In t two_tiles ->
                   in_int (tileSize * td_x t) /\ in_int (tileSize * td_y t)).
  { intros t [<-|[<-|[]]]; vm_compute; intuition discriminate. }
  eexists. split; [reflexivity|].
  destruct (@compositePano_cropped ok two_tiles 1 _ Hz Hfit eq_refl)
    as (canvas & l & t & w & h & _ & Hbox & Hw & Hh & _).
  cbn in Hbox. injection Hbox as <- <- <- <-.
  split; reflexivity.
Defined.

(** X10: without a canvas nothing is composed.  For zoom <= 0
    [compositePano] stops in the panic of the negative shift before any
    imaging call, and when the canvas is refused it returns that error,
    in both cases whatever the tiles (none is decoded). *)
Theorem compositePano_without_canvas (E : Env) (tiles : list tileData) (zoom : Z) :
  (zoom <= 0 ->
   compositePano E tiles zoom = Panic (RuntimeError "negative shift amount")) /\
  (forall dim,
      getDimensionsFromZoom zoom = Ret dim ->
      vips_black_ok E (mul tileSize (width dim)) (mul tileSize (height dim)) = false ->
      compositePano E tiles zoom = Ret (Err (ErrVips "black"))).
Proof.
  split.
  - intros Hz. now rewrite compositePano_unfold, dimensions_nonpositive.
  - intros dim Hdim Hblack. rewrite compositePano_unfold, Hdim.
    unfold vips_Black. now rewrite Hblack.
Qed.

Lemma compositePano_without_canvas_witness :
  compositePano ok tiles_with_stray 0 = Panic (RuntimeError "negative shift amount") /\
  compositePano ok tiles_with_stray 54 = Ret (Err (ErrVips "black")).
Proof.
  destruct (@compositePano_without_canvas ok tiles_with_stray 0) as [Hneg _].
  destruct (@compositePano_without_canvas ok tiles_with_stray 54) as [_ Hblack].
  split; [apply Hneg; lia|].
  apply (Hblack {| width := 2 ^ 54; height := 2 ^ 53 |}); vm_compute; reflexivity.
Defined.

End CompositorCases.

(** * Further properties of the entry point *)

Module PipelineCases.
Import PlannerFacts FetchFacts DownloadFacts DownloadCases CompositorCases TestEnv.

Lemma main_plan :
  getTilesConfig mainPanoId defaultZoom = Ret (grid mainPanoId defaultZoom 16 8).
Proof. apply (@getTilesConfig_grid mainPanoId 4); lia. Qed.

Lemma fetch_events_no_write evs :
  forallb is_fetch_event evs = true -> filter is_write evs = [].
Proof.
  induction evs as [|e evs IH]; [reflexivity|].
  cbn [forallb]. intros H. apply andb_true_iff in H. destruct H as [He H].
  destruct e; try discriminate; cbn; auto.
Qed.

Lemma filter_write_app (a b : trace) :
  filter is_write (a ++ b) = filter is_write a ++ filter is_write b.
Proof. apply filter_app. Qed.

Section WithEnv.
Variable E : Env.

Lemma main_cases h :
  main E h =
  match getTiles E mainPanoId defaultZoom mainClient (h ++ [EvStartup]) with
  | (Panic v, h1) => (Panic v, h1 ++ [EvShutdown])
  | (Ret (Err e), h1) => (Panic (PanicError e), h1 ++ [EvShutdown])
  | (Ret (Ok tiles), h1) =>
      match compositePano E tiles defaultZoom with
      | Panic v => (Panic v, (h1 ++ [EvCompositePano]) ++ [EvShutdown])
      | Ret (Err e) =>
          (Panic (PanicError e), (h1 ++ [EvCompositePano]) ++ [EvShutdown])
      | Ret (Ok pano) =>
          match vips_Export E pano with
          | None => (Panic (PanicError (ErrVips "export")),
                     (h1 ++ [EvCompositePano]) ++ [EvShutdown])
          | Some bytes =>
              (Ret tt,
               ((h1 ++ [EvCompositePano]) ++ [EvWriteFile "pano.jpg" bytes 420])
                 ++ [EvShutdown])
          end
      end
  end.
Proof.
  unfold main, main_body, bind.
  change "KGt-9AaQ7UTn_PgwRqtTOg" with mainPanoId.
  change (NewClient {| lim_every_ms := 200; lim_burst := 1 |}) with mainClient.
  destruct (getTiles E mainPanoId defaultZoom mainClient (h ++ [EvStartup]))
    as [[[tiles|e]|v] h1]; try reflexivity.
  unfold emit, lift.
  destruct (compositePano E tiles defaultZoom) as [[pano|e]|v]; try reflexivity.
  unfold Export. destruct (vips_Export E pano) as [bytes|]; reflexivity.
Qed.

Lemma compositePano_zoom4_returns tiles :
  exists rc, compositePano E tiles defaultZoom = Ret rc.
Proof. rewrite compositePano_unfold. cbn. eauto. Qed.

(** The download of [main], whatever its outcome. *)
Lemma main_download h :
  exists rg evs,
    getTiles E mainPanoId defaultZoom mainClient (h ++ [EvStartup])
      = (Ret rg, (h ++ [EvStartup]) ++ evs) /\
    guarded evs = true /\
    forallb is_fetch_event evs = true /\
    prefix (requests evs) (map request_of (grid mainPanoId defaultZoom 16 8)) /\
    (forall tds, rg = Ok tds ->
                 requests evs = map request_of (grid mainPanoId defaultZoom 16 8)).
Proof.
  destruct (getTiles E mainPanoId defaultZoom mainClient (h ++ [EvStartup]))
    as [r h1] eqn:Hrun.
  destruct (getTiles_events _ _ _ _ _ Hrun) as [evs' [-> Hfetch]].
  rewrite getTiles_unfold, main_plan in Hrun.
  apply loop_discipline in Hrun.
  destruct Hrun as (evs & k & Heq & Hg & Hp & _ & [rg ->] & Hall & _).
  apply app_inv_head in Heq. subst evs'.
  exists rg, evs. split; [reflexivity|]. split; [exact Hg|].
  split; [exact Hfetch|]. split; [exact Hp|].
  intros tds ->. now destruct (Hall tds eq_refl).
Qed.

End WithEnv.

(** X11: when [main] returns normally, it has requested the 128 tiles of
    zoom 4, each once and in planner order, before composing; it has
    composed the downloaded tiles, exported the result and written the
    exported bytes to pano.jpg with mode 0644, once, as its last action
    before shutting the imaging library down. *)
Theorem main_success_trace (E : Env) (h h' : trace) :
  main E h = (Ret tt, h') ->
  exists evs tiles pano bytes,
    h' = h ++ [EvStartup] ++ evs
           ++ [EvCompositePano; EvWriteFile "pano.jpg" bytes 420; EvShutdown] /\
    forallb is_fetch_event evs = true /\
    requests evs = map request_of (grid mainPanoId defaultZoom 16 8) /\
    List.length (requests evs) = 128%nat /\
    getTiles E mainPanoId defaultZoom mainClient (h ++ [EvStartup])
      = (Ret (Ok tiles), (h ++ [EvStartup]) ++ evs) /\
    compositePano E tiles defaultZoom = Ret (Ok pano) /\
    vips_Export E pano = Some bytes.
Proof.
  rewrite main_cases.
  destruct (main_download E h) as (rg & evs & Hget & _ & Hfetch & _ & Hall).
  rewrite Hget. destruct rg as [tiles|e]; [|discriminate].
  destruct (compositePano_zoom4_returns E tiles) as [rc Hcomp]. rewrite Hcomp.
  destruct rc as [pano|e]; [|discriminate].
  destruct (vips_Export E pano) as [bytes|] eqn:Hexp; [|discriminate].
  intros [= <-]. exists evs, tiles, pano, bytes.
  split; [now rewrite <- !app_assoc|].
  split; [exact Hfetch|].
  split; [now apply (Hall tiles)|].
  split; [|auto].
  rewrite (Hall tiles eq_refl), length_map. reflexivity.
Qed.

Lemma disk_full_main_returns : exists h', main disk_full [] = (Ret tt, h').
Proof.
  rewrite main_cases.
  assert (Hget : getTiles disk_full mainPanoId defaultZoom mainClient ([] ++ [EvStartup])
                 = (Ret (Ok disk_full_tiles), snd disk_full_download))
    by (vm_compute; reflexivity).
  rewrite Hget. destruct Pipeline.disk_full_composes as [pano ->].
  cbn. eauto.
Qed.

Lemma main_success_trace_witness :
  exists h' evs bytes,
    main disk_full [] = (Ret tt, h') /\
    h' = [] ++ [EvStartup] ++ evs
           ++ [EvCompositePano; EvWriteFile "pano.jpg" bytes 420; EvShutdown] /\
    List.length (requests evs) = 128%nat.
Proof.
  destruct disk_full_main_returns as [h' Hmain].
  destruct (@main_success_trace disk_full [] h' Hmain)
    as (evs & tiles & pano & bytes & Hh & _ & _ & Hlen & _).
  exists h', evs, bytes. auto.
Defined.



(** X13: whatever its outcome, [main] starts the imaging library first
    and shuts it down last; in between it requests only tiles of the
    zoom-4 plan, in planner order and each at most once (so at most 128
    requests), every request right after a wait on the limiter; and it
    writes a file exactly when it returns normally. *)
Theorem main_discipline (E : Env) (h : trace) (r : res unit) (h' : trace) :
  main E h = (r, h') ->
  exists evs,
    h' = h ++ [EvStartup] ++ evs ++ [EvShutdown] /\
    guarded evs = true /\
    prefix (requests evs) (map request_of (grid mainPanoId defaultZoom 16 8)) /\
    (List.length (requests evs) <= 128)%nat /\
    (r = Ret tt ->
     exists bytes, filter is_write evs = [EvWriteFile "pano.jpg" bytes 420]) /\
    (r <> Ret tt -> filter is_write evs = []).
Proof.
  rewrite main_cases.
  destruct (main_download E h) as (rg & evs & Hget & Hg & Hfetch & Hp & _).
  rewrite Hget. pose proof (fetch_events_no_write _ Hfetch) as Hw.
  assert (Hlen : (List.length (requests evs) <= 128)%nat).
  { destruct Hp as [rest Hrest].
    apply (f_equal (@List.length _)) in Hrest.
    rewrite length_app, length_map in Hrest.
    change (List.length (grid mainPanoId defaultZoom 16 8)) with 128%nat in Hrest.
    lia. }
  assert (Htail : forall tail,
             guarded tail = true -> requests tail = [] ->
             guarded (evs ++ tail) = true /\
             prefix (requests (evs ++ tail))
                    (map request_of (grid mainPanoId defaultZoom 16 8)) /\
             (List.length (requests (evs ++ tail)) <= 128)%nat).
  { intros tail Hgt Hrt. rewrite requests_app, Hrt, app_nil_r.
    split; [now apply guarded_app|auto]. }
  destruct rg as [tiles|e].
  - destruct (compositePano E tiles defaultZoom) as [[pano|e]|v].
    + destruct (vips_Export E pano) as [bytes|].
      * intros [= <- <-].
        exists (evs ++ [EvCompositePano; EvWriteFile "pano.jpg" bytes 420]).
        split; [now rewrite <- !app_assoc|].
        destruct (Htail [EvCompositePano; EvWriteFile "pano.jpg" bytes 420])
          as (H1 & H2 & H3); try reflexivity.
        repeat (split; [assumption|]). split.
        -- intros _. exists bytes. rewrite filter_write_app, Hw. reflexivity.
        -- intros Hne. now contradiction Hne.
      * intros [= <- <-]. exists (evs ++ [EvCompositePano]).
        split; [now rewrite <- !app_assoc|].
        destruct (Htail [EvCompositePano]) as (H1 & H2 & H3); try reflexivity.
        repeat (split; [assumption|]). split; [discriminate|].
        intros _. rewrite filter_write_app, Hw. reflexivity.
    + intros [= <- <-]. exists (evs ++ [EvCompositePano]).
      split; [now rewrite <- !app_assoc|].
      destruct (Htail [EvCompositePano]) as (H1 & H2 & H3); try reflexivity.
      repeat (split; [assumption|]). split; [discriminate|].
      intros _. rewrite filter_write_app, Hw. reflexivity.
    + intros [= <- <-]. exists (evs ++ [EvCompositePano]).
      split; [now rewrite <- !app_assoc|].
      destruct (Htail [EvCompositePano]) as (H1 & H2 & H3); try reflexivity.
      repeat (split; [assumption|]). split; [discriminate|].
      intros _. rewrite filter_write_app, Hw. reflexivity.
  - intros [= <- <-]. exists evs.
    split; [now rewrite <- !app_assoc|].
    repeat (split; [assumption|]). split; [discriminate|auto].
Qed.

Lemma main_discipline_witness :
  exists evs,
    snd (main (fail_at 3) []) = [] ++ [EvStartup] ++ evs ++ [EvShutdown] /\
    guarded evs = true /\
    (List.length (requests evs) <= 128)%nat /\
    filter is_write evs = [].
Proof.
  destruct (@main_discipline (fail_at 3) [] _ _ (surjective_pairing _))
    as (evs & Hh & Hg & _ & Hlen & _ & Hw).
  exists evs. split; [exact Hh|]. split; [exact Hg|]. split; [exact Hlen|].
  apply Hw. vm_compute. discriminate.
Defined.

End PipelineCases.
